(** * Audio-to-video creator

    A shallow embedding of the parts of the application that decide how
    visual assets are edited, turned into clips, placed on the timeline and
    exported:

    - [App.tsx]: [VisualAsset], [TimelineItem] and the [onAssetSelect]
      handler that places an asset on the timeline;
    - [TimelineEditor.tsx]: the Remove button;
    - [MediaCreator.tsx]: [imageFilters], [applyImageEdits] and
      [createVideoClip];
    - [ExportControls.tsx]: [handleExport].

    JavaScript numbers that hold seconds or canvas coordinates are modelled
    as exact rationals ([Q]); slider values with step 1 are integers ([Z]);
    array lengths are [nat].  The current transformation matrix of a canvas
    is modelled over the reals, since it is built from [Math.cos] and
    [Math.sin]. *)

From Stdlib Require Import ZArith QArith List String Ascii Bool Lia Lqa.
From Stdlib Require Import DecimalString Sorted.
From Stdlib Require Import Reals Lra.
Import ListNotations.

Set Implicit Arguments.

(** ** JavaScript helpers *)

Module Js.

(** [Number.prototype.toString] on an integer. *)
Definition toString (z : Z) : string :=
  NilZero.string_of_int (Z.to_int z).

(** [x || dflt] where [x] is an optional number: [undefined] and [0] are
    both falsy. *)
Definition or_default (x : option Q) (dflt : Q) : Q :=
  match x with
  | Some v => if Qeq_bool v 0 then dflt else v
  | None => dflt
  end.

(** [x < y] on numbers. *)
Definition ltb (x y : Q) : bool := negb (Qle_bool y x).

Definition lower_ascii (c : ascii) : ascii :=
  let n := nat_of_ascii c in
  if (65 <=? n)%nat && (n <=? 90)%nat then ascii_of_nat (n + 32) else c.

(** [String.prototype.toLowerCase] on ASCII text. *)
Fixpoint toLowerCase (s : string) : string :=
  match s with
  | EmptyString => EmptyString
  | String c rest => String (lower_ascii c) (toLowerCase rest)
  end.

(** Truthiness of a string: only the empty string is falsy. *)
Definition truthy (s : string) : bool :=
  match s with EmptyString => false | _ => true end.

End Js.

(** ** Clip creator: fitting an image to the 1920x1080 canvas *)

(** A selected image file, once decoded: its name and intrinsic size. *)
Record ImageFile := {
  file_name : string;
  img_width : Z;
  img_height : Z
}.

(** The destination rectangle of [ctx.drawImage(img, drawX, drawY,
    drawWidth, drawHeight)]. *)
Record DrawRect := {
  drawX : Q;
  drawY : Q;
  drawWidth : Q;
  drawHeight : Q
}.

(** One entry of [frames]: the canvas after it was cleared and the image was
    drawn into the rectangle. *)
Record Frame := {
  frame_source : ImageFile;
  frame_rect : DrawRect
}.

Module ClipCanvas.
Definition width : Q := 1920.
Definition height : Q := 1080.
End ClipCanvas.

(** The body of [img.onload] in [createVideoClip]: "Draw image (fit to
    canvas)".  The results about it are for images of positive width and
    height, where the divisions are those of JavaScript. *)
Definition fitToCanvas (img : ImageFile) : DrawRect :=
  let aspectRatio := inject_Z (img_width img) / inject_Z (img_height img) in
  let canvasAspectRatio := ClipCanvas.width / ClipCanvas.height in
  if Js.ltb canvasAspectRatio aspectRatio then
    let w := ClipCanvas.width in
    let h := ClipCanvas.width / aspectRatio in
    {| drawX := 0; drawY := (ClipCanvas.height - h) / 2;
       drawWidth := w; drawHeight := h |}
  else
    let w := ClipCanvas.height * aspectRatio in
    let h := ClipCanvas.height in
    {| drawX := (ClipCanvas.width - w) / 2; drawY := 0;
       drawWidth := w; drawHeight := h |}.

Definition renderFrame (img : ImageFile) : Frame :=
  {| frame_source := img; frame_rect := fitToCanvas img |}.

(** ** Visual assets and timeline items ([App.tsx]) *)

Inductive AssetType := image | video | clipart.

(** An asset's [url]/[thumbnail]: a plain address, or the data URL of a
    rendered canvas frame. *)
Inductive Url :=
| Href (s : string)
| DataUrl (f : Frame).

Module VisualAsset.
Record t := {
  id : string;
  type : AssetType;
  url : Url;
  thumbnail : Url;
  name : string;
  duration : option Q
}.
End VisualAsset.

Module TimelineItem.
Record t := {
  id : string;
  asset : VisualAsset.t;
  startTime : Q;
  duration : Q;
  position : nat
}.
End TimelineItem.

(** The item built by [onAssetSelect] when the timeline already holds
    [timelineItems] and [Date.now()] reads [now]. *)
Definition newItem (timelineItems : list TimelineItem.t)
    (asset : VisualAsset.t) (now : Z) : TimelineItem.t :=
  {| TimelineItem.id := Js.toString now;
     TimelineItem.asset := asset;
     TimelineItem.startTime := 0;
     TimelineItem.duration := Js.or_default (VisualAsset.duration asset) 3;
     TimelineItem.position := List.length timelineItems |}.

(** [onAssetSelect]: [setTimelineItems([...timelineItems, newItem])]. *)
Definition onAssetSelect (timelineItems : list TimelineItem.t)
    (asset : VisualAsset.t) (now : Z) : list TimelineItem.t :=
  timelineItems ++ [newItem timelineItems asset now].

(** The Remove button of the timeline editor:
    [timelineItems.filter(t => t.id !== item.id)]. *)
Definition removeItem (timelineItems : list TimelineItem.t)
    (item : TimelineItem.t) : list TimelineItem.t :=
  filter (fun t => negb (String.eqb (TimelineItem.id t) (TimelineItem.id item)))
         timelineItems.

(** Timelines the user can reach: start empty, add assets, remove items. *)
Inductive reachable : list TimelineItem.t -> Prop :=
| reach_empty : reachable []
| reach_add tl asset now :
    reachable tl -> reachable (onAssetSelect tl asset now)
| reach_remove tl item :
    reachable tl -> In item tl -> reachable (removeItem tl item).

(** ** Clip creator ([MediaCreator.tsx]) *)

Definition clipTransitions : list string :=
  ["fade"; "slide-left"; "slide-right"; "slide-up"; "slide-down";
   "zoom-in"; "zoom-out"; "rotate"; "flip"]%string.

(** The clip-creator part of the component state. *)
Record ClipCreator := {
  selectedImages : list ImageFile;
  clipDuration : Q;
  transition : string
}.

(** [createVideoClip]: [None] is the early [return] on an empty selection;
    otherwise the asset handed to [onAssetCreated]. *)
Definition createVideoClip (st : ClipCreator) (now : Z)
  : option VisualAsset.t :=
  let frames := map renderFrame (selectedImages st) in
  match frames with
  | [] => None
  | frame0 :: _ =>
      let n := List.length (selectedImages st) in
      Some {| VisualAsset.id := Js.toString now;
              VisualAsset.type := video;
              VisualAsset.url := DataUrl frame0;
              VisualAsset.thumbnail := DataUrl frame0;
              VisualAsset.name :=
                ("Clip_" ++ Js.toString (Z.of_nat n) ++ "_images")%string;
              VisualAsset.duration :=
                Some (inject_Z (Z.of_nat n) * clipDuration st) |}
  end.

(** Choosing another entry of the Transition Effect select. *)
Definition setTransition (tr : string) (st : ClipCreator) : ClipCreator :=
  {| selectedImages := selectedImages st;
     clipDuration := clipDuration st;
     transition := tr |}.

(** The "Total duration" label under the Create Clip button. *)
Definition totalDurationLabel (st : ClipCreator) : Q :=
  inject_Z (Z.of_nat (List.length (selectedImages st))) * clipDuration st.

(** ** The built-in library ([VisualContentLibrary.tsx]) *)

Definition mockAsset (i : string) (ty : AssetType) (u th nm : string)
    (d : option Q) : VisualAsset.t :=
  {| VisualAsset.id := i; VisualAsset.type := ty;
     VisualAsset.url := Href u; VisualAsset.thumbnail := Href th;
     VisualAsset.name := nm; VisualAsset.duration := d |}.

Definition mockImages : list VisualAsset.t :=
  [ mockAsset "1" image "/example-image.png" "/example-image.png"
      "Gaming Character" None;
    mockAsset "2" image
      "https://images.unsplash.com/photo-1493225457124-a3eb161ffa5f?w=400"
      "https://images.unsplash.com/photo-1493225457124-a3eb161ffa5f?w=200"
      "Abstract Music" None;
    mockAsset "3" image
      "https://images.unsplash.com/photo-1470225620780-dba8ba36b745?w=400"
      "https://images.unsplash.com/photo-1470225620780-dba8ba36b745?w=200"
      "Music Studio" None;
    mockAsset "4" image
      "https://images.unsplash.com/photo-1511379938547-c1f69419868d?w=400"
      "https://images.unsplash.com/photo-1511379938547-c1f69419868d?w=200"
      "Sound Waves" None;
    mockAsset "5" image
      "https://images.unsplash.com/photo-1574375927938-d5a98e8ffe85?w=400"
      "https://images.unsplash.com/photo-1574375927938-d5a98e8ffe85?w=200"
      "Neon Lights" None;
    mockAsset "6" image
      "https://images.unsplash.com/photo-1518837695005-2083093ee35b?w=400"
      "https://images.unsplash.com/photo-1518837695005-2083093ee35b?w=200"
      "Digital Art" None ]%string.

Definition mockVideos : list VisualAsset.t :=
  [ mockAsset "5" video
      "https://sample-videos.com/zip/10/mp4/SampleVideo_1280x720_1mb.mp4"
      "https://images.unsplash.com/photo-1574375927938-d5a98e8ffe85?w=200"
      "Abstract Motion" (Some 10);
    mockAsset "6" video
      "https://sample-videos.com/zip/10/mp4/SampleVideo_1280x720_2mb.mp4"
      "https://images.unsplash.com/photo-1518837695005-2083093ee35b?w=200"
      "Particle Effects" (Some 15) ]%string.

Definition mockClipart : list VisualAsset.t :=
  [ mockAsset "7" clipart
      "https://images.unsplash.com/photo-1493225457124-a3eb161ffa5f?w=400"
      "https://images.unsplash.com/photo-1493225457124-a3eb161ffa5f?w=200"
      "Music Note" None;
    mockAsset "8" clipart
      "https://images.unsplash.com/photo-1470225620780-dba8ba36b745?w=400"
      "https://images.unsplash.com/photo-1470225620780-dba8ba36b745?w=200"
      "Speaker Icon" None ]%string.

(** ** Intervals on the timeline

    The application has no code for overlaps, bridging transitions or gaps;
    the notions below follow the wording of the specification and serve to
    state what it says about the code above.  A [TimelineItem] has no
    transition field, so no overlap of two items is ever bridged. *)

(** The half-open interval [[startTime, startTime + duration)] holds [t]. *)
Definition activeAt (it : TimelineItem.t) (t : Q) : bool :=
  Qle_bool (TimelineItem.startTime it) t
  && Js.ltb t (TimelineItem.startTime it + TimelineItem.duration it).

(** The intervals of two items share a point. *)
Definition overlap (a b : TimelineItem.t) : bool :=
  Js.ltb (TimelineItem.startTime a)
         (TimelineItem.startTime b + TimelineItem.duration b)
  && Js.ltb (TimelineItem.startTime b)
            (TimelineItem.startTime a + TimelineItem.duration a).

(** The placement validation the specification words: positive duration,
    non-negative start, no overlap with an item already placed. *)
Definition placementValid (tl : list TimelineItem.t) (it : TimelineItem.t)
  : bool :=
  Js.ltb 0 (TimelineItem.duration it)
  && Qle_bool 0 (TimelineItem.startTime it)
  && forallb (fun t => negb (overlap t it)) tl.

Definition coveredAt (tl : list TimelineItem.t) (t : Q) : bool :=
  existsb (fun it => activeAt it t) tl.

(** Some instant of [[0, target)] is covered by no item. *)
Definition hasGap (tl : list TimelineItem.t) (target : Q) : Prop :=
  exists t : Q, 0 <= t /\ t < target /\ coveredAt tl t = false.

(** ** Export controls ([ExportControls.tsx]) *)

Module ExportControls.

(** Component state.  [progressInterval] is the live [setInterval] timer,
    if any, together with the format and quality its callback closed
    over. *)
Record t := {
  selectedFormat : string;
  selectedQuality : string;
  isExporting : bool;
  exportProgress : Z;
  progressInterval : option (string * string)
}.

Definition initial : t :=
  {| selectedFormat := "mp4"; selectedQuality := "1080p";
     isExporting := false; exportProgress := 0;
     progressInterval := None |}.

(** What a step lets the outside observe: a value handed to
    [setExportProgress], or a call of the [onExport] prop. *)
Inductive Output :=
| Progress (value : Z)
| OnExport (format quality : string).

(** [handleExport]: [setIsExporting(true)], [setExportProgress(0)], start
    the 200 ms interval. *)
Definition handleExport (st : t) : t * list Output :=
  ({| selectedFormat := selectedFormat st;
      selectedQuality := selectedQuality st;
      isExporting := true;
      exportProgress := 0;
      progressInterval := Some (selectedFormat st, selectedQuality st) |},
   [Progress 0]).

(** One firing of the interval callback, [setExportProgress(prev => ...)].
    Without a live interval nothing fires. *)
Definition tick (st : t) : t * list Output :=
  match progressInterval st with
  | None => (st, [])
  | Some (format, quality) =>
      let prev := exportProgress st in
      if (100 <=? prev)%Z then
        ({| selectedFormat := selectedFormat st;
            selectedQuality := selectedQuality st;
            isExporting := false;
            exportProgress := 100;
            progressInterval := None |},
         [OnExport format quality; Progress 100])
      else
        ({| selectedFormat := selectedFormat st;
            selectedQuality := selectedQuality st;
            isExporting := isExporting st;
            exportProgress := (prev + 5)%Z;
            progressInterval := progressInterval st |},
         [Progress (prev + 5)%Z])
  end.

(** [n] firings of the interval. *)
Fixpoint ticks (n : nat) (st : t) : t * list Output :=
  match n with
  | O => (st, [])
  | S k =>
      let (st1, out1) := tick st in
      let (st2, out2) := ticks k st1 in
      (st2, out1 ++ out2)
  end.

(** The click on "Export Video" followed by [n] timer periods and nothing
    else. *)
Definition uninterrupted (st : t) (n : nat) : t * list Output :=
  let (st0, out0) := handleExport st in
  let (st1, out1) := ticks n st0 in
  (st1, out0 ++ out1).

Definition setSelectedFormat (f : string) (st : t) : t :=
  {| selectedFormat := f; selectedQuality := selectedQuality st;
     isExporting := isExporting st; exportProgress := exportProgress st;
     progressInterval := progressInterval st |}.

Definition setSelectedQuality (q : string) (st : t) : t :=
  {| selectedFormat := selectedFormat st; selectedQuality := q;
     isExporting := isExporting st; exportProgress := exportProgress st;
     progressInterval := progressInterval st |}.

(** What can happen while an export runs: the timer fires, or the user
    picks another format or quality (both selects stay enabled). *)
Inductive Event :=
| Tick
| SelectFormat (format : string)
| SelectQuality (quality : string).

Definition step (ev : Event) (st : t) : t * list Output :=
  match ev with
  | Tick => tick st
  | SelectFormat f => (setSelectedFormat f st, [])
  | SelectQuality q => (setSelectedQuality q st, [])
  end.

Fixpoint run (evs : list Event) (st : t) : t * list Output :=
  match evs with
  | [] => (st, [])
  | ev :: rest =>
      let (st1, out1) := step ev st in
      let (st2, out2) := run rest st1 in
      (st2, out1 ++ out2)
  end.

(** An export session: the click on "Export Video" and the events that
    follow it. *)
Definition session (st : t) (evs : list Event) : t * list Output :=
  let (st0, out0) := handleExport st in
  let (st1, out1) := run evs st0 in
  (st1, out0 ++ out1).

(** The number of timer periods among the events. *)
Definition periods (evs : list Event) : nat :=
  List.length (filter (fun ev => match ev with Tick => true | _ => false end)
                      evs).

(** Two states agree on everything the timer callback reads or writes. *)
Definition sameTimer (s1 s2 : t) : Prop :=
  isExporting s1 = isExporting s2 /\
  exportProgress s1 = exportProgress s2 /\
  progressInterval s1 = progressInterval s2.

(** States of the mounted component.  The "Export Video" button is only
    rendered while [isExporting] is false. *)
Inductive reachable : t -> Prop :=
| reach_initial : reachable initial
| reach_format f st : reachable st -> reachable (setSelectedFormat f st)
| reach_quality q st : reachable st -> reachable (setSelectedQuality q st)
| reach_click st :
    reachable st -> isExporting st = false ->
    reachable (fst (handleExport st))
| reach_tick st : reachable st -> reachable (fst (tick st)).

Definition progressValues (out : list Output) : list Z :=
  flat_map (fun o => match o with Progress v => [v] | OnExport _ _ => [] end)
           out.

Definition onExportCalls (out : list Output) : list (string * string) :=
  flat_map (fun o => match o with
                     | OnExport f q => [(f, q)]
                     | Progress _ => []
                     end) out.

(** The errors an export can end with according to the specification. *)
Inductive ExportError := IncompleteTimeline.

Inductive ExportResult :=
| Exported (format quality : string)
| Failed (e : ExportError)
| Running.

(** How a session that produced [out] ended: the component has no failure
    path, an export is over once [onExport] was called. *)
Definition resultOf (out : list Output) : ExportResult :=
  match onExportCalls out with
  | (f, q) :: _ => Exported f q
  | [] => Running
  end.

End ExportControls.

(** ** The application state that export can see ([App.tsx]) *)

Record AudioFile := {
  audio_name : string;
  audio_duration : Q
}.

Record App := {
  audioFile : option AudioFile;
  timelineItems : list TimelineItem.t;
  exportControls : ExportControls.t
}.

(** [<ExportControls onExport=... />] receives neither the timeline nor the
    audio file: pressing "Export Video" runs the session on the component
    state alone. *)
Definition exportVideo (app : App) (evs : list ExportControls.Event)
  : ExportControls.t * list ExportControls.Output :=
  ExportControls.session (exportControls app) evs.

(** ** Rasters *)

(** Decoded pixels as [ImageData] holds them: row-major RGBA, one number
    per channel. *)
Record Raster := {
  rwidth : Z;
  rheight : Z;
  data : list Z
}.

Definition Pixel : Type := Z * Z * Z * Z.



(** The bitmap of a canvas right after its size was set: transparent
    black. *)
Definition clear (w h : Z) : Raster :=
  {| rwidth := w; rheight := h;
     data := repeat 0%Z (Z.to_nat (4 * w * h)) |}.


(** Run a per-pixel function over the channel array. *)
Fixpoint mapPixels (f : Pixel -> Pixel) (l : list Z) : list Z :=
  match l with
  | r :: g :: b :: a :: rest =>
      let '(r', g', b', a') := f (r, g, b, a) in
      r' :: g' :: b' :: a' :: mapPixels f rest
  | _ => l
  end.

Definition onPixels (f : Pixel -> Pixel) (r : Raster) : Raster :=
  {| rwidth := rwidth r; rheight := rheight r; data := mapPixels f (data r) |}.

(** ** Filter functions of the canvas [filter] property *)

Module Css.

Inductive fn :=
| brightness (pct : Z)
| contrast (pct : Z)
| saturate (pct : Z)
| sepia (pct : Z)
| grayscale (pct : Z)
| blur (px : Z)
| hue_rotate (deg : Z)
| invert (pct : Z).

(** A value of the property: the keyword [none] or a list of functions. *)
Inductive filter :=
| none
| functions (fs : list fn).

(** A percentage argument must not be negative; the angle of
    [hue-rotate] may be. *)
Definition wellFormed (f : fn) : bool :=
  match f with
  | brightness p | contrast p | saturate p
  | sepia p | grayscale p | invert p => (0 <=? p)%Z
  | blur px => (0 <=? px)%Z
  | hue_rotate _ => true
  end.

Definition clamp8 (v : Z) : Z := Z.max 0 (Z.min 255 v).

(** [n / d] rounded to the nearest integer, for [d > 0]. *)
Definition divRound (n d : Z) : Z := ((2 * n + d) / (2 * d))%Z.

(** Modelled from the spec: the per-channel arithmetic of the three
    adjustable colour stages, which the browser's canvas implements and the
    repository does not contain.  "brightness scale": every colour
    channel is multiplied by the factor. *)
Definition brightnessPixel (pct : Z) (p : Pixel) : Pixel :=
  let '(r, g, b, a) := p in
  let s v := clamp8 (divRound (v * pct) 100) in
  (s r, s g, s b, a).

(** Modelled from the spec: "contrast scale around mid-gray (128)". *)
Definition contrastPixel (pct : Z) (p : Pixel) : Pixel :=
  let '(r, g, b, a) := p in
  let s v := clamp8 (divRound ((v - 128) * pct) 100 + 128) in
  (s r, s g, s b, a).

(** Modelled from the spec: "saturation scale in a luma-preserving color
    model": every channel moves away from the pixel's luma
    (0.2126 R + 0.7152 G + 0.0722 B, kept in ten-thousandths) by the
    factor. *)
Definition saturatePixel (pct : Z) (p : Pixel) : Pixel :=
  let '(r, g, b, a) := p in
  let luma := (2126 * r + 7152 * g + 722 * b)%Z in
  let s v :=
    clamp8 (divRound (luma * (100 - pct) + 10000 * v * pct) 1000000) in
  (s r, s g, s b, a).

End Css.

(** ** The filter catalog ([imageFilters]) *)

Record ImageFilter := {
  filterName : string;
  filterValue : Css.filter
}.

Definition imageFilters : list ImageFilter :=
  [ {| filterName := "None"; filterValue := Css.none |};
    {| filterName := "Sepia"; filterValue := Css.functions [Css.sepia 100] |};
    {| filterName := "Grayscale";
       filterValue := Css.functions [Css.grayscale 100] |};
    {| filterName := "Blur"; filterValue := Css.functions [Css.blur 2] |};
    {| filterName := "Brightness";
       filterValue := Css.functions [Css.brightness 150] |};
    {| filterName := "Contrast";
       filterValue := Css.functions [Css.contrast 150] |};
    {| filterName := "Saturate";
       filterValue := Css.functions [Css.saturate 200] |};
    {| filterName := "Hue Rotate";
       filterValue := Css.functions [Css.hue_rotate 90] |};
    {| filterName := "Invert"; filterValue := Css.functions [Css.invert 100] |};
    {| filterName := "Vintage";
       filterValue := Css.functions
         [Css.sepia 50; Css.contrast 120; Css.brightness 110] |};
    {| filterName := "Cool";
       filterValue := Css.functions [Css.hue_rotate 180; Css.saturate 120] |};
    {| filterName := "Warm";
       filterValue := Css.functions
         [Css.hue_rotate 30; Css.saturate 130; Css.brightness 110] |} ]%string.

(** The tail of the filter template:
    [selectedFilter !== 'none' ? imageFilters.find(...)?.filter || '' : ''].
    [None] stands for the empty string. *)
Definition catalogPart (selectedFilter : string) : option Css.filter :=
  if String.eqb selectedFilter "none" then None
  else
    match find (fun f => String.eqb (Js.toLowerCase (filterName f))
                                    selectedFilter) imageFilters with
    | Some f => Some (filterValue f)
    | None => None
    end.

(** The value the template string
    [brightness(b%) contrast(c%) saturate(s%) <tail>] denotes; [None] when
    the string is not a filter list, in which case the canvas ignores the
    assignment. *)
Definition filterTemplate (b c s : Z) (selectedFilter : string)
  : option Css.filter :=
  let sliders := [Css.brightness b; Css.contrast c; Css.saturate s] in
  let whole :=
    match catalogPart selectedFilter with
    | None => Some sliders
    | Some (Css.functions fs) => Some (sliders ++ fs)
    | Some Css.none => None
    end in
  match whole with
  | Some fs => if forallb Css.wellFormed fs then Some (Css.functions fs)
               else None
  | None => None
  end.

(** ** The 2D context of a canvas *)

Module Matrix.
Local Open Scope R_scope.

(** The current transformation matrix [[a c e; b d f; 0 0 1]]. *)
Record t := { a : R; b : R; c : R; d : R; e : R; f : R }.

Definition identity : t :=
  {| a := 1; b := 0; c := 0; d := 1; e := 0; f := 0 |}.

Definition translation (tx ty : R) : t :=
  {| a := 1; b := 0; c := 0; d := 1; e := tx; f := ty |}.

Definition rotation (angle : R) : t :=
  {| a := cos angle; b := sin angle;
     c := - sin angle; d := cos angle; e := 0; f := 0 |}.

(** [mul m n] maps a point through [n] first, then through [m]. *)
Definition mul (m n : t) : t :=
  {| a := a m * a n + c m * b n;
     b := b m * a n + d m * b n;
     c := a m * c n + c m * d n;
     d := b m * c n + d m * d n;
     e := a m * e n + c m * f n + e m;
     f := b m * e n + d m * f n + f m |}.

(** Where the matrix sends the point [(x, y)]. *)
Definition apply (m : t) (p : R * R) : R * R :=
  let (x, y) := p in
  (a m * x + c m * y + e m, b m * x + d m * y + f m).
End Matrix.

Inductive TextAlign := align_start | align_center.

Record Font := {
  font_px : Z;
  font_family : string
}.

(** The drawing state that [save] and [restore] push and pop. *)
Record DrawingState := {
  ctm : Matrix.t;
  filter : Css.filter;
  fillStyle : string;
  font : Font;
  textAlign : TextAlign
}.

(** The state of a context whose canvas was just resized. *)
Definition defaultState : DrawingState :=
  {| ctm := Matrix.identity;
     filter := Css.none;
     fillStyle := "#000000";
     font := {| font_px := 10; font_family := "sans-serif" |};
     textAlign := align_start |}.

(** A drawing call together with the drawing state it ran under. *)
Inductive DrawOp :=
| DrawImage (img : Raster) (dx dy : R) (st : DrawingState)
| FillText (text : string) (x y : R) (st : DrawingState).

Record Context := {
  current : DrawingState;
  saved : list DrawingState;
  drawn : list DrawOp
}.

Definition freshContext : Context :=
  {| current := defaultState; saved := []; drawn := [] |}.

Module Ctx.

(** A call on the context. *)
Definition cmd : Type := Context -> Context.

Definition andThen (c1 c2 : cmd) : cmd := fun ctx => c2 (c1 ctx).

Definition skip : cmd := fun ctx => ctx.

Definition withState (g : DrawingState -> DrawingState) : cmd :=
  fun ctx => {| current := g (current ctx);
                saved := saved ctx;
                drawn := drawn ctx |}.

Definition save : cmd :=
  fun ctx => {| current := current ctx;
                saved := current ctx :: saved ctx;
                drawn := drawn ctx |}.

(** [restore] pops the stack; on an empty stack it does nothing. *)
Definition restore : cmd :=
  fun ctx =>
    match saved ctx with
    | top :: below =>
        {| current := top; saved := below; drawn := drawn ctx |}
    | [] => ctx
    end.

Definition transformBy (m : Matrix.t) : cmd :=
  withState (fun g => {| ctm := Matrix.mul (ctm g) m;
                         filter := filter g;
                         fillStyle := fillStyle g;
                         font := font g;
                         textAlign := textAlign g |}).

Definition translate (tx ty : R) : cmd :=
  transformBy (Matrix.translation tx ty).

Definition rotate (angle : R) : cmd :=
  transformBy (Matrix.rotation angle).

(** Assigning [ctx.filter]; a string that is not a filter value leaves
    the property as it was. *)
Definition setFilter (v : option Css.filter) : cmd :=
  match v with
  | None => skip
  | Some fl =>
      withState (fun g => {| ctm := ctm g;
                             filter := fl;
                             fillStyle := fillStyle g;
                             font := font g;
                             textAlign := textAlign g |})
  end.

Definition setFillStyle (colour : string) : cmd :=
  withState (fun g => {| ctm := ctm g;
                         filter := filter g;
                         fillStyle := colour;
                         font := font g;
                         textAlign := textAlign g |}).

Definition setFont (fnt : Font) : cmd :=
  withState (fun g => {| ctm := ctm g;
                         filter := filter g;
                         fillStyle := fillStyle g;
                         font := fnt;
                         textAlign := textAlign g |}).

Definition setTextAlign (al : TextAlign) : cmd :=
  withState (fun g => {| ctm := ctm g;
                         filter := filter g;
                         fillStyle := fillStyle g;
                         font := font g;
                         textAlign := al |}).

Definition draw (op : DrawingState -> DrawOp) : cmd :=
  fun ctx => {| current := current ctx;
                saved := saved ctx;
                drawn := drawn ctx ++ [op (current ctx)] |}.

Definition drawImage (img : Raster) (dx dy : R) : cmd :=
  draw (DrawImage img dx dy).

Definition fillText (text : string) (x y : R) : cmd :=
  draw (FillText text x y).

End Ctx.

Declare Scope canvas_scope.
Delimit Scope canvas_scope with canvas.
Notation "c1 ;; c2" := (Ctx.andThen c1 c2)
  (at level 61, right associativity) : canvas_scope.

(** ** The image editor ([MediaCreator.tsx]) *)

(** The image-editor part of the component state.  [selectedImage] stands
    for the selected file together with its decoded pixels in [imageRef];
    the canvas element and its 2D context are taken to exist. *)
Record Editor := {
  selectedImage : option Raster;
  brightness : Z;
  contrast : Z;
  saturation : Z;
  selectedFilter : string;
  textOverlay : string;
  textColor : string;
  textSize : Z;
  rotation : Z
}.

Record Canvas := {
  canvas_width : Z;
  canvas_height : Z;
  context : Context
}.

(** The calls [applyImageEdits] makes on the context of a canvas of size
    [w] by [h] once [img] is loaded. *)
Definition editCalls (ed : Editor) (img : Raster) (w h : Z) : Ctx.cmd :=
  (Ctx.save ;;
   Ctx.translate (IZR w / 2) (IZR h / 2) ;;
   Ctx.rotate (IZR (rotation ed) * PI / 180) ;;
   Ctx.translate (- IZR w / 2) (- IZR h / 2) ;;
   Ctx.setFilter (filterTemplate (brightness ed) (contrast ed)
                                 (saturation ed) (selectedFilter ed)) ;;
   Ctx.drawImage img 0 0 ;;
   (if Js.truthy (textOverlay ed) then
      Ctx.setFilter (Some Css.none) ;;
      Ctx.setFillStyle (textColor ed) ;;
      Ctx.setFont {| font_px := textSize ed; font_family := "Arial" |} ;;
      Ctx.setTextAlign align_center ;;
      Ctx.fillText (textOverlay ed) (IZR w / 2) (IZR h / 2)
    else Ctx.skip) ;;
   Ctx.restore)%canvas.

(** [applyImageEdits]: [None] is the early [return] when no image is
    selected; otherwise the canvas, resized to the image and drawn on. *)
Definition applyImageEdits (ed : Editor) : option Canvas :=
  match selectedImage ed with
  | None => None
  | Some img =>
      let w := rwidth img in
      let h := rheight img in
      Some {| canvas_width := w;
              canvas_height := h;
              context := editCalls ed img w h freshContext |}
  end.

(** The editor as it is first shown, and after the Reset button (which
    leaves [textColor] and [textSize] alone). *)
Definition identityEdits (img : Raster) (textColor : string) (textSize : Z)
  : Editor :=
  {| selectedImage := Some img;
     brightness := 100; contrast := 100; saturation := 100;
     selectedFilter := "none"; textOverlay := "";
     textColor := textColor; textSize := textSize; rotation := 0 |}.

(** ** From drawing calls to pixels *)

(** What the browser contributes to a drawing call and the repository does
    not contain: placing an image under a transformation matrix, rasterising
    text, the pixel arithmetic of the catalog's own filter functions, and
    compositing a layer onto the bitmap. *)
Record Backend := {
  resample : Matrix.t -> R -> R -> Raster -> Z -> Z -> Raster;
  glyphs : DrawingState -> string -> R -> R -> Z -> Z -> Raster;
  primitive : Css.fn -> Raster -> Raster;
  composite : Raster -> Raster -> Raster
}.

Section Rendering.

Variable B : Backend.

Definition applyFn (fn : Css.fn) (r : Raster) : Raster :=
  match fn with
  | Css.brightness p => onPixels (Css.brightnessPixel p) r
  | Css.contrast p => onPixels (Css.contrastPixel p) r
  | Css.saturate p => onPixels (Css.saturatePixel p) r
  | other => primitive B other r
  end.

(** A filter list runs left to right, every function on the result of
    the one before it. *)
Definition applyFilter (fl : Css.filter) (r : Raster) : Raster :=
  match fl with
  | Css.none => r
  | Css.functions fs => fold_left (fun acc fn => applyFn fn acc) fs r
  end.

(** The layer a drawing call produces: the shape under the transformation
    matrix first, the filter on that. *)
Definition layerOf (w h : Z) (op : DrawOp) : Raster :=
  match op with
  | DrawImage img dx dy g =>
      applyFilter (filter g) (resample B (ctm g) dx dy img w h)
  | FillText text x y g =>
      applyFilter (filter g) (glyphs B g text x y w h)
  end.

(** The bitmap of the canvas after its drawing calls. *)
Definition render (c : Canvas) : Raster :=
  fold_left
    (fun bitmap op =>
       composite B (layerOf (canvas_width c) (canvas_height c) op) bitmap)
    (drawn (context c))
    (clear (canvas_width c) (canvas_height c)).


End Rendering.

(** ** A backend for untransformed drawing

    The smallest backend that meets what the results below assume of one:
    images are placed pixel for pixel, text leaves no pixels, the catalog's
    own primitives are not applied, and layers are composited source-over on
    straight (not premultiplied) alpha. *)

Module PlainBackend.

Definition overPixel (src dst : Pixel) : Pixel :=
  let '(sr, sg, sb, sa) := src in
  let '(dr, dg, db, da) := dst in
  if (da =? 0)%Z then src
  else if (sa =? 255)%Z then src
  else if (sa =? 0)%Z then dst
  else
    let rest := (da * (255 - sa))%Z in
    let oa := (255 * sa + rest)%Z in
    let mix s d := Css.divRound (255 * s * sa + d * rest) oa in
    (mix sr dr, mix sg dg, mix sb db, Css.divRound oa 255).

Fixpoint over (src dst : list Z) : list Z :=
  match src, dst with
  | sr :: sg :: sb :: sa :: src', dr :: dg :: db :: da :: dst' =>
      let '(r, g, b, a) := overPixel (sr, sg, sb, sa) (dr, dg, db, da) in
      r :: g :: b :: a :: over src' dst'
  | _, _ => src
  end.

Definition backend : Backend :=
  {| resample := fun _ _ _ img _ _ => img;
     glyphs := fun _ _ _ _ w h => clear w h;
     primitive := fun _ r => r;
     composite := fun layer bitmap =>
       {| rwidth := rwidth layer; rheight := rheight layer;
          data := over (data layer) (data bitmap) |} |}.

End PlainBackend.

(** A 2x1 test image: an opaque red pixel and a half-transparent blue
    one. *)
Definition samplePixels : Raster :=
  {| rwidth := 2; rheight := 1;
     data := [255; 0; 0; 255; 0; 0; 255; 128]%Z |}.

(** ** A backend with a premultiplied bitmap

    Browsers keep the bitmap of a canvas with every colour channel
    multiplied by alpha, in eight bits, and divide by alpha again when the
    pixels are read.  This backend stores layers that way; as in
    [PlainBackend] images are placed pixel for pixel, text leaves no pixels
    and the catalog's own primitives are not applied. *)

Module PremultipliedBackend.

Definition premultiply (p : Pixel) : Pixel :=
  let '(r, g, b, a) := p in
  let m v := Css.divRound (v * a) 255 in
  (m r, m g, m b, a).

Definition unpremultiply (p : Pixel) : Pixel :=
  let '(r, g, b, a) := p in
  if (a =? 0)%Z then (0, 0, 0, 0)%Z
  else
    let u v := Css.clamp8 (Css.divRound (v * 255) a) in
    (u r, u g, u b, a).


(** Source-over on premultiplied pixels. *)
Definition overPixel (src dst : Pixel) : Pixel :=
  let '(sr, sg, sb, sa) := src in
  let '(dr, dg, db, da) := dst in
  let k v := Css.divRound (v * (255 - sa)) 255 in
  (sr + k dr, sg + k dg, sb + k db, sa + k da)%Z.

Fixpoint over (src dst : list Z) : list Z :=
  match src, dst with
  | sr :: sg :: sb :: sa :: src', dr :: dg :: db :: da :: dst' =>
      let '(r, g, b, a) := overPixel (sr, sg, sb, sa) (dr, dg, db, da) in
      r :: g :: b :: a :: over src' dst'
  | _, _ => src
  end.

Definition backend : Backend :=
  {| resample := fun _ _ _ img _ _ => img;
     glyphs := fun _ _ _ _ w h => clear w h;
     primitive := fun _ r => r;
     composite := fun layer bitmap =>
       {| rwidth := rwidth layer; rheight := rheight layer;
          data := mapPixels unpremultiply
                    (over (mapPixels premultiply (data layer))
                          (mapPixels premultiply (data bitmap))) |} |}.

End PremultipliedBackend.





(** ** What the editor's calls add up to

    The drawing states under which [applyImageEdits] issues its two drawing
    calls, written out; [editCalls_drawn] below proves that these are the
    states the calls produce. *)

(** The matrix after [translate(w/2, h/2)], [rotate(rotation * PI / 180)],
    [translate(-w/2, -h/2)] on a fresh context. *)
Definition editMatrix (ed : Editor) (w h : Z) : Matrix.t :=
  Matrix.mul
    (Matrix.mul
       (Matrix.mul Matrix.identity
                   (Matrix.translation (IZR w / 2) (IZR h / 2)))
       (Matrix.rotation (IZR (rotation ed) * PI / 180)))
    (Matrix.translation (- IZR w / 2) (- IZR h / 2)).

(** The filter in force after the assignment of the template string. *)
Definition editFilter (ed : Editor) : Css.filter :=
  match filterTemplate (brightness ed) (contrast ed) (saturation ed)
                       (selectedFilter ed) with
  | Some fl => fl
  | None => Css.none
  end.

Definition imageState (ed : Editor) (w h : Z) : DrawingState :=
  {| ctm := editMatrix ed w h;
     filter := editFilter ed;
     fillStyle := fillStyle defaultState;
     font := font defaultState;
     textAlign := textAlign defaultState |}.

Definition textState (ed : Editor) (w h : Z) : DrawingState :=
  {| ctm := editMatrix ed w h;
     filter := Css.none;
     fillStyle := textColor ed;
     font := {| font_px := textSize ed; font_family := "Arial" |};
     textAlign := align_center |}.

(** The catalog's contribution to the filter list: nothing for "none". *)
Definition catalogFilter (selectedFilter : string) : Css.filter :=
  match catalogPart selectedFilter with
  | Some fl => fl
  | None => Css.none
  end.

(** ** Sample data *)

Definition galleryImage : VisualAsset.t :=
  mockAsset "1" image "/example-image.png" "/example-image.png"
    "Gaming Character" None.

Definition motionVideo : VisualAsset.t :=
  mockAsset "5" video
    "https://sample-videos.com/zip/10/mp4/SampleVideo_1280x720_1mb.mp4"
    "https://images.unsplash.com/photo-1574375927938-d5a98e8ffe85?w=200"
    "Abstract Motion" (Some 10).

(** Three clicks on the same library image, one millisecond apart. *)
Definition oneImage : list TimelineItem.t :=
  onAssetSelect [] galleryImage 1700000000001.

Definition twoImages : list TimelineItem.t :=
  onAssetSelect oneImage galleryImage 1700000000002.

Definition threeImages : list TimelineItem.t :=
  onAssetSelect twoImages galleryImage 1700000000003.

Definition firstOfThree : TimelineItem.t :=
  newItem [] galleryImage 1700000000001.

Definition photo (nm : string) (w h : Z) : ImageFile :=
  {| file_name := nm; img_width := w; img_height := h |}.

(** Three selected images at 3 s each with the "fade" transition. *)
Definition threeByThree : ClipCreator :=
  {| selectedImages := [photo "a.png" 4000 3000; photo "b.png" 1920 1080;
                        photo "c.png" 1000 2000];
     clipDuration := 3;
     transition := "fade" |}.

(** Two selected images at 2 s each, and the 4 s clip made from them. *)
Definition twoByTwo : ClipCreator :=
  {| selectedImages := [photo "a.png" 4000 3000; photo "b.png" 1920 1080];
     clipDuration := 2;
     transition := "fade" |}.

Definition fourSecondClip : VisualAsset.t :=
  match createVideoClip twoByTwo 1700000000000 with
  | Some clip => clip
  | None => galleryImage
  end.

(** A project whose only item covers [0,4) under a 5 s audio track: the
    timeline has the gap [4,5). *)
Definition gappedProject : App :=
  {| audioFile := Some {| audio_name := "song.mp3"; audio_duration := 5 |};
     timelineItems := onAssetSelect [] fourSecondClip 1700000000001;
     exportControls := ExportControls.initial |}.

(** The test image turned upside down with a caption on it. *)
Definition captionedUpsideDown : Editor :=
  {| selectedImage := Some samplePixels;
     brightness := 100; contrast := 100; saturation := 100;
     selectedFilter := "none"; textOverlay := "Hi";
     textColor := "#ffffff"; textSize := 24; rotation := 180 |}.

(** The test image with every slider moved and the "Vintage" filter. *)
Definition vintageEdit : Editor :=
  {| selectedImage := Some samplePixels;
     brightness := 150; contrast := 80; saturation := 120;
     selectedFilter := "vintage"; textOverlay := "";
     textColor := "#ffffff"; textSize := 24; rotation := 0 |}.

(** * The rest of the application *)

From Stdlib Require Import Qround DecimalPos DecimalZ.

(** ** More of JavaScript *)

Module JsNum.

(** [Math.max] and [Math.min] of two numbers. *)
Definition max (x y : Q) : Q := if Js.ltb x y then y else x.
Definition min (x y : Q) : Q := if Js.ltb y x then y else x.

(** The integer part of a number, rounding toward 0. *)
Definition trunc (x : Q) : Z := if Js.ltb x 0 then Qceiling x else Qfloor x.

(** [x % y]: the remainder has the sign of the dividend. *)
Definition rem (x y : Q) : Q := x - y * inject_Z (trunc (x / y)).

(** [x.toFixed(0)]: the nearest integer, the one away from 0 when two are
    equally near, with the sign kept in front. *)
Definition toFixed0 (x : Q) : string :=
  if Js.ltb x 0
  then ("-" ++ Js.toString (Qfloor (- x + (1 # 2))))%string
  else Js.toString (Qfloor (x + (1 # 2))).

End JsNum.

Module JsStr.

Fixpoint replicate (n : nat) (c : ascii) : string :=
  match n with
  | O => EmptyString
  | S k => String c (replicate k c)
  end.

(** [s.padStart(n, c)] for a one-character filler. *)
Definition padStart (n : nat) (c : ascii) (s : string) : string :=
  (replicate (n - String.length s) c ++ s)%string.

(** [s.startsWith(p)]. *)
Definition startsWith (s p : string) : bool := String.prefix p s.

(** [s.includes(q)]. *)
Fixpoint includes (s q : string) : bool :=
  if String.prefix q s then true
  else match s with
       | EmptyString => false
       | String _ rest => includes rest q
       end.

End JsStr.

(** ** Times as text *)

(** [formatTime] of the timeline editor. *)
Definition formatTime (seconds : Q) : string :=
  let mins := Qfloor (seconds / 60) in
  let secs := Qfloor (JsNum.rem seconds 60) in
  (Js.toString mins ++ ":" ++ JsStr.padStart 2 "0" (Js.toString secs))%string.

(** The duration shown by the uploader, the preview and the Audio Info
    card: [Math.floor(d / 60)], a colon, and
    [(d % 60).toFixed(0).padStart(2, '0')]. *)
Definition durationLabel (d : Q) : string :=
  (Js.toString (Qfloor (d / 60)) ++ ":"
   ++ JsStr.padStart 2 "0" (JsNum.toFixed0 (JsNum.rem d 60)))%string.

(** The second line of a timeline row:
    [formatTime(startTime) - formatTime(startTime + duration)]. *)
Definition itemTimes (it : TimelineItem.t) : string :=
  (formatTime (TimelineItem.startTime it) ++ " - "
   ++ formatTime (TimelineItem.startTime it + TimelineItem.duration it))%string.

(** Two decimal digits. *)
Definition twoDigits (n : Z) : string :=
  String (ascii_of_nat (48 + Z.to_nat (n / 10)))
    (String (ascii_of_nat (48 + Z.to_nat (n mod 10))) EmptyString).

(** ** The audio player of the timeline editor *)

Module Player.

(** What the component does to its [<audio>] element: the time and volume
    it last assigned, and whether it last called [pause] or [play]. *)
Record AudioElement := {
  el_currentTime : Q;
  el_volume : Q;
  el_paused : bool
}.

Record t := {
  isPlaying : bool;
  currentTime : Q;
  volume : Z;
  audioRef : option AudioElement
}.

(** The component when it is first rendered and the element is mounted. *)
Definition initial : t :=
  {| isPlaying := false; currentTime := 0; volume := 75;
     audioRef := Some {| el_currentTime := 0; el_volume := 1;
                         el_paused := true |} |}.

(** The waveform canvas: [width={800}], [height={100}]. *)
Definition canvasWidth : Q := 800.

Definition seekTo (time : Q) (st : t) : t :=
  match audioRef st with
  | None => st
  | Some audio =>
      {| isPlaying := isPlaying st;
         currentTime := time;
         volume := volume st;
         audioRef := Some {| el_currentTime := time;
                             el_volume := el_volume audio;
                             el_paused := el_paused audio |} |}
  end.

(** The two skip buttons. *)
Definition skipBack (st : t) : t :=
  seekTo (JsNum.max 0 (currentTime st - 10)) st.

Definition skipForward (duration : Q) (st : t) : t :=
  seekTo (JsNum.min duration (currentTime st + 10)) st.

(** The time a click at horizontal offset [x] on the waveform stands
    for. *)
Definition clickTime (duration x : Q) : Q := (x / canvasWidth) * duration.

Definition handleCanvasClick (duration x : Q) (st : t) : t :=
  seekTo (clickTime duration x) st.

(** Where [drawWaveform] draws the playhead. *)
Definition playheadX (duration : Q) (st : t) : Q :=
  (currentTime st / duration) * canvasWidth.

Definition togglePlayPause (st : t) : t :=
  match audioRef st with
  | None => st
  | Some audio =>
      {| isPlaying := negb (isPlaying st);
         currentTime := currentTime st;
         volume := volume st;
         audioRef := Some {| el_currentTime := el_currentTime audio;
                             el_volume := el_volume audio;
                             el_paused := isPlaying st |} |}
  end.

(** The [timeupdate] listener, when the element reports time [t]. *)
Definition updateTime (time : Q) (st : t) : t :=
  {| isPlaying := isPlaying st; currentTime := time; volume := volume st;
     audioRef := audioRef st |}.

(** The [ended] listener. *)
Definition handleEnded (st : t) : t :=
  {| isPlaying := false; currentTime := 0; volume := volume st;
     audioRef := audioRef st |}.

(** The volume slider and the effect that follows it:
    [audio.volume = volume[0] / 100]. *)
Definition setVolume (v : Z) (st : t) : t :=
  {| isPlaying := isPlaying st; currentTime := currentTime st; volume := v;
     audioRef :=
       match audioRef st with
       | None => None
       | Some audio =>
           Some {| el_currentTime := el_currentTime audio;
                   el_volume := inject_Z v / 100;
                   el_paused := el_paused audio |}
       end |}.

Inductive Event :=
| SkipBack
| SkipForward
| Click (x : Q)
| TimeUpdate (t : Q)
| Ended
| TogglePlay
| Volume (v : Z).

Definition step (duration : Q) (ev : Event) (st : t) : t :=
  match ev with
  | SkipBack => skipBack st
  | SkipForward => skipForward duration st
  | Click x => handleCanvasClick duration x st
  | TimeUpdate t => updateTime t st
  | Ended => handleEnded st
  | TogglePlay => togglePlayPause st
  | Volume v => setVolume v st
  end.

Definition run (duration : Q) (evs : list Event) (st : t) : t :=
  fold_left (fun s ev => step duration ev s) evs st.

(** Events as the page can deliver them: a click lands on the canvas, the
    element reports a time within the track, the slider stays in 0..100. *)
Definition eventOk (duration : Q) (ev : Event) : Prop :=
  match ev with
  | Click x => 0 <= x /\ x <= canvasWidth
  | TimeUpdate t => 0 <= t /\ t <= duration
  | Volume v => (0 <= v <= 100)%Z
  | _ => True
  end.

End Player.

(** ** Timelines with their clock readings *)

(** Timelines built while [Date.now()] kept advancing: [stamped t tl] holds
    when [t] is the latest reading used and every add came at a later
    reading than the one before. *)
Inductive stamped : Z -> list TimelineItem.t -> Prop :=
| stamped_empty t : stamped t []
| stamped_add t tl asset now :
    stamped t tl -> (t < now)%Z ->
    stamped now (onAssetSelect tl asset now)
| stamped_remove t tl item :
    stamped t tl -> In item tl -> stamped t (removeItem tl item).

(** ** The steps of the application ([App.tsx]) *)

Module Wizard.

Inductive Step := upload | style | customize | preview.

Inductive StyleType := music | presentation | slideshow.

Record VideoStyle := {
  style_id : string;
  style_name : string;
  style_description : string;
  style_type : StyleType
}.

Definition videoStyles : list VideoStyle :=
  [ {| style_id := "music-video"; style_name := "Music Video";
       style_description := "Dynamic visuals synced to beat and rhythm";
       style_type := music |};
    {| style_id := "presentation"; style_name := "Presentation";
       style_description := "PowerPoint-style slides with text and images";
       style_type := presentation |};
    {| style_id := "slideshow"; style_name := "Slideshow";
       style_description := "Smooth transitions between images and clips";
       style_type := slideshow |} ]%string.

(** The state of [App]. *)
Record t := {
  audioFile : option AudioFile;
  selectedStyle : option VideoStyle;
  timelineItems : list TimelineItem.t;
  isGenerating : bool;
  currentStep : Step
}.

Definition initial : t :=
  {| audioFile := None; selectedStyle := None; timelineItems := [];
     isGenerating := false; currentStep := upload |}.

Definition handleAudioUpload (audio : AudioFile) (st : t) : t :=
  {| audioFile := Some audio; selectedStyle := selectedStyle st;
     timelineItems := timelineItems st; isGenerating := isGenerating st;
     currentStep := style |}.

Definition handleStyleSelect (s : VideoStyle) (st : t) : t :=
  {| audioFile := audioFile st; selectedStyle := Some s;
     timelineItems := timelineItems st; isGenerating := isGenerating st;
     currentStep := customize |}.

Definition setTimelineItems (items : list TimelineItem.t) (st : t) : t :=
  {| audioFile := audioFile st; selectedStyle := selectedStyle st;
     timelineItems := items; isGenerating := isGenerating st;
     currentStep := currentStep st |}.

(** [handleGenerateVideo] up to its [await]. *)
Definition startGenerating (st : t) : t :=
  {| audioFile := audioFile st; selectedStyle := selectedStyle st;
     timelineItems := timelineItems st; isGenerating := true;
     currentStep := currentStep st |}.

(** [handleGenerateVideo] after the 3 seconds. *)
Definition finishGenerating (st : t) : t :=
  {| audioFile := audioFile st; selectedStyle := selectedStyle st;
     timelineItems := timelineItems st; isGenerating := false;
     currentStep := preview |}.

(** What can happen to the application.  [AssetChosen seen asset now] is a
    call of [onAssetSelect] whose closure saw the timeline [seen]: the
    current one, or an earlier one when the call comes from a clip that
    took time to create. *)
Inductive Event :=
| AudioUploaded (audio : AudioFile)
| StyleClicked (s : VideoStyle)
| AssetChosen (seen : list TimelineItem.t) (asset : VisualAsset.t) (now : Z)
| RowRemoved (item : TimelineItem.t)
| GenerateClicked
| GenerateFinished.

(** Whether the page lets the event happen.  The tabs show the content of
    [currentStep] only and have no handler for clicks on their triggers;
    the uploader may still report a file after its tab was left; the
    Generate button is disabled while generating or with no rows. *)
Definition enabled (st : t) (ev : Event) : bool :=
  match ev with
  | AudioUploaded _ => true
  | StyleClicked _ =>
      match currentStep st with style => true | _ => false end
  | AssetChosen _ _ _ => true
  | RowRemoved _ =>
      match currentStep st, audioFile st with
      | customize, Some _ => true
      | _, _ => false
      end
  | GenerateClicked =>
      match currentStep st, audioFile st, timelineItems st with
      | customize, Some _, _ :: _ => negb (isGenerating st)
      | _, _, _ => false
      end
  | GenerateFinished => isGenerating st
  end.

Definition apply (ev : Event) (st : t) : t :=
  match ev with
  | AudioUploaded audio => handleAudioUpload audio st
  | StyleClicked s => handleStyleSelect s st
  | AssetChosen seen asset now =>
      setTimelineItems (onAssetSelect seen asset now) st
  | RowRemoved item => setTimelineItems (removeItem (timelineItems st) item) st
  | GenerateClicked => startGenerating st
  | GenerateFinished => finishGenerating st
  end.

Inductive reachable : t -> Prop :=
| reach_initial : reachable initial
| reach_event st ev :
    reachable st -> enabled st ev = true -> reachable (apply ev st).

(** [disabled] of the four tab triggers. *)
Definition triggerDisabled (st : t) (tab : Step) : bool :=
  match tab with
  | upload => false
  | style =>
      match audioFile st with None => true | Some _ => false end
  | customize =>
      match selectedStyle st with None => true | Some _ => false end
  | preview =>
      match timelineItems st with [] => true | _ => false end
  end.

(** The guard of [VideoPreview]: "No Preview Available". *)
Definition noPreviewAvailable (st : t) : bool :=
  match audioFile st, selectedStyle st with
  | Some _, Some _ => false
  | _, _ => true
  end.

(** [{audioFile && <TimelineEditor ... />}] in the customize tab. *)
Definition showsTimelineEditor (st : t) : bool :=
  match currentStep st, audioFile st with
  | customize, Some _ => true
  | _, _ => false
  end.

End Wizard.

(** ** The preview ([VideoPreview.tsx]) *)

Module Preview.

Record t := {
  isPlaying : bool;
  currentTime : Q
}.

Definition initial : t := {| isPlaying := false; currentTime := 0 |}.

Definition togglePlayPause (st : t) : t :=
  {| isPlaying := negb (isPlaying st); currentTime := currentTime st |}.

Definition resetPreview (st : t) : t :=
  {| isPlaying := false; currentTime := 0 |}.

Inductive Event := PlayPause | Reset.

Definition step (ev : Event) (st : t) : t :=
  match ev with
  | PlayPause => togglePlayPause st
  | Reset => resetPreview st
  end.

Definition run (evs : list Event) (st : t) : t :=
  fold_left (fun s ev => step ev s) evs st.

(** The width of the progress bar, in percent:
    [(currentTime / (audioFile?.duration || 1)) * 100]. *)
Definition progressWidth (audio : option AudioFile) (st : t) : Q :=
  (currentTime st / Js.or_default (option_map audio_duration audio) 1) * 100.

End Preview.

(** ** The audio uploader ([AudioUploader.tsx]) *)

Module Uploader.

(** A file as the browser hands it over: its name and MIME type. *)
Record FileInfo := {
  fi_name : string;
  fi_type : string
}.

(** Where [processAudioFile] stands: not running, waiting for the
    metadata of the file, or waiting out the 500 ms before it reports the
    file with its duration. *)
Inductive Phase :=
| Idle
| Loading (file : FileInfo)
| Finishing (audio : AudioFile).

(** Component state.  [intervals] counts the live progress intervals;
    their callbacks are all alike. *)
Record t := {
  isUploading : bool;
  uploadProgress : Z;
  uploadedFile : option AudioFile;
  intervals : nat;
  phase : Phase
}.

Definition initial : t :=
  {| isUploading := false; uploadProgress := 0; uploadedFile := None;
     intervals := 0; phase := Idle |}.

(** [processAudioFile] up to its [await]. *)
Definition processAudioFile (file : FileInfo) (st : t) : t :=
  {| isUploading := true; uploadProgress := 0;
     uploadedFile := uploadedFile st;
     intervals := S (intervals st);
     phase := Loading file |}.

(** One firing of a progress interval:
    [prev >= 90 ? (clearInterval(...), 90) : prev + 10]. *)
Definition tick (st : t) : t :=
  let prev := uploadProgress st in
  if (90 <=? prev)%Z then
    {| isUploading := isUploading st; uploadProgress := 90;
       uploadedFile := uploadedFile st;
       intervals := pred (intervals st); phase := phase st |}
  else
    {| isUploading := isUploading st; uploadProgress := (prev + 10)%Z;
       uploadedFile := uploadedFile st;
       intervals := intervals st; phase := phase st |}.

(** [audio.onloadedmetadata]: the progress jumps to 100 and the 500 ms
    timeout is set. *)
Definition metadataLoaded (file : FileInfo) (duration : Q) (st : t) : t :=
  {| isUploading := isUploading st; uploadProgress := 100;
     uploadedFile := uploadedFile st; intervals := intervals st;
     phase := Finishing {| audio_name := fi_name file;
                           audio_duration := duration |} |}.

(** The timeout: the file is shown as uploaded and reported through
    [onAudioUpload]. *)
Definition timeoutFired (audio : AudioFile) (st : t) : t :=
  {| isUploading := false; uploadProgress := uploadProgress st;
     uploadedFile := Some audio; intervals := intervals st;
     phase := Idle |}.

(** [audio.onerror], caught by [processAudioFile]. *)
Definition loadFailed (st : t) : t :=
  {| isUploading := false; uploadProgress := 0;
     uploadedFile := uploadedFile st; intervals := intervals st;
     phase := Idle |}.

Definition removeFile (st : t) : t :=
  match uploadedFile st with
  | None => st
  | Some _ =>
      {| isUploading := isUploading st; uploadProgress := uploadProgress st;
         uploadedFile := None; intervals := intervals st;
         phase := phase st |}
  end.

(** [handleDrop] takes the first audio file among the dropped ones;
    [handleFileSelect] takes the first file of the dialog as it is. *)
Definition droppedAudio (files : list FileInfo) : option FileInfo :=
  find (fun f => JsStr.startsWith (fi_type f) "audio/") files.

Definition selectedFile (files : list FileInfo) : option FileInfo :=
  hd_error files.

Inductive Event :=
| Dropped (files : list FileInfo)
| Selected (files : list FileInfo)
| Tick
| MetadataLoaded (duration : Q)
| LoadFailed
| TimeoutFired
| RemoveClicked.

(** The drop zone and the file input are only rendered while nothing is
    uploading and no file is shown as uploaded. *)
Definition acceptsFiles (st : t) : bool :=
  negb (isUploading st)
  && match uploadedFile st with None => true | Some _ => false end.

(** One event; [None] when the page cannot deliver it in that state. *)
Definition step (ev : Event) (st : t) : option t :=
  match ev with
  | Dropped files =>
      if acceptsFiles st then
        match droppedAudio files with
        | Some f => Some (processAudioFile f st)
        | None => Some st
        end
      else None
  | Selected files =>
      if acceptsFiles st then
        match selectedFile files with
        | Some f => Some (processAudioFile f st)
        | None => Some st
        end
      else None
  | Tick =>
      match intervals st with
      | O => None
      | S _ => Some (tick st)
      end
  | MetadataLoaded duration =>
      match phase st with
      | Loading f => Some (metadataLoaded f duration st)
      | _ => None
      end
  | LoadFailed =>
      match phase st with
      | Loading _ => Some (loadFailed st)
      | _ => None
      end
  | TimeoutFired =>
      match phase st with
      | Finishing audio => Some (timeoutFired audio st)
      | _ => None
      end
  | RemoveClicked =>
      match uploadedFile st, isUploading st with
      | Some _, false => Some (removeFile st)
      | _, _ => None
      end
  end.

Fixpoint run (evs : list Event) (st : t) : option t :=
  match evs with
  | [] => Some st
  | ev :: rest =>
      match step ev st with
      | Some st1 => run rest st1
      | None => None
      end
  end.

Definition reachable (st : t) : Prop :=
  exists evs, run evs initial = Some st.

End Uploader.

(** ** Importing and selecting images ([MediaCreator.tsx]) *)

Module Media.

(** A [File] object: [upload_ref] stands for its identity as an object,
    which is what [includes] and [!==] compare; [upload_image] is what an
    [Image] element loads from it, [None] when its bytes do not decode and
    [onload] never fires. *)
Record Upload := {
  upload_ref : nat;
  upload_type : string;
  upload_image : option ImageFile
}.

Record t := {
  importedImages : list Upload;
  selectedImages : list Upload
}.

Definition initial : t := {| importedImages := []; selectedImages := [] |}.

Definition sameFile (a b : Upload) : bool :=
  Nat.eqb (upload_ref a) (upload_ref b).

Definition isImage (f : Upload) : bool :=
  JsStr.startsWith (upload_type f) "image/".

(** [handleFileImport]. *)
Definition handleFileImport (files : list Upload) (st : t) : t :=
  {| importedImages := importedImages st ++ List.filter isImage files;
     selectedImages := selectedImages st |}.

(** [prev.includes(file)]. *)
Definition includesFile (l : list Upload) (file : Upload) : bool :=
  existsb (fun f => sameFile f file) l.

(** The click on a thumbnail of the clip creator:
    [prev.includes(file) ? prev.filter(f => f !== file) : [...prev, file]]. *)
Definition toggle (file : Upload) (prev : list Upload) : list Upload :=
  if includesFile prev file
  then List.filter (fun f => negb (sameFile f file)) prev
  else prev ++ [file].

Definition toggleSelected (file : Upload) (st : t) : t :=
  {| importedImages := importedImages st;
     selectedImages := toggle file (selectedImages st) |}.

(** The states of the component: files arrive as new objects, and only
    thumbnails of imported files can be clicked. *)
Inductive reachable : t -> Prop :=
| reach_initial : reachable initial
| reach_import files st :
    reachable st ->
    NoDup (map upload_ref (importedImages st ++ files)) ->
    reachable (handleFileImport files st)
| reach_toggle file st :
    reachable st -> In file (importedImages st) ->
    reachable (toggleSelected file st).

(** The loop of [createVideoClip] over the selected files: every image is
    awaited in turn, and the promise of a file that does not decode never
    settles ([onload] is the only handler set). *)
Fixpoint loadAll (files : list Upload) : option (list ImageFile) :=
  match files with
  | [] => Some []
  | f :: rest =>
      match upload_image f with
      | None => None
      | Some img =>
          match loadAll rest with
          | None => None
          | Some imgs => Some (img :: imgs)
          end
      end
  end.

(** How a call of [createVideoClip] ends: with the early [return], never
    (an awaited promise stays pending, so neither the asset is made nor
    [finally] run), or with the asset handed to [onAssetCreated]. *)
Inductive ClipOutcome :=
| NoClip
| Pending
| Created (asset : VisualAsset.t).

(** [createVideoClip] on the selected files, with [d] seconds per image
    and the transition [tr] chosen; the 2D context of its canvas is taken
    to exist. *)
Definition createVideoClip (st : t) (d : Q) (tr : string) (now : Z)
  : ClipOutcome :=
  match selectedImages st with
  | [] => NoClip
  | _ :: _ =>
      match loadAll (selectedImages st) with
      | None => Pending
      | Some imgs =>
          match createVideoClip (Build_ClipCreator imgs d tr) now with
          | Some asset => Created asset
          | None => NoClip
          end
      end
  end.

End Media.

(** The Reset button of the image editor. *)
Definition resetEdits (ed : Editor) : Editor :=
  {| selectedImage := selectedImage ed;
     brightness := 100; contrast := 100; saturation := 100;
     selectedFilter := "none"; textOverlay := "";
     textColor := textColor ed; textSize := textSize ed; rotation := 0 |}.

(** [saveEditedImage]: [editedImageUrl] is the object URL that
    [applyImageEdits] stored, [selectedName] is [selectedImage?.name], and
    [None] is the early [return] while no edited image exists. *)
Definition saveEditedImage (editedImageUrl : string)
    (selectedName : option string) (now : Z) : option VisualAsset.t :=
  if negb (Js.truthy editedImageUrl) then None
  else
    let name := match selectedName with
                | Some n => if Js.truthy n then n else "image"
                | None => "image"
                end%string in
    Some {| VisualAsset.id := Js.toString now;
            VisualAsset.type := image;
            VisualAsset.url := Href editedImageUrl;
            VisualAsset.thumbnail := Href editedImageUrl;
            VisualAsset.name := ("Edited_" ++ name)%string;
            VisualAsset.duration := None |}.

(** The values of the Duration per Image slider: [min={1}], [max={10}];
    it starts at 3. *)
Definition sliderDuration (d : Q) : Prop := (1 <= d /\ d <= 10)%Q.

(** The assets that reach [onAssetSelect]: it is called for a card of the
    built-in library, and, as [onAssetCreated], by [createVideoClip] and by
    [saveEditedImage]. *)
Inductive offered : VisualAsset.t -> Prop :=
| offered_card asset :
    In asset (mockImages ++ mockVideos ++ mockClipart) -> offered asset
| offered_clip st now asset :
    sliderDuration (clipDuration st) ->
    createVideoClip st now = Some asset -> offered asset
| offered_edit editedImageUrl selectedName now asset :
    saveEditedImage editedImageUrl selectedName now = Some asset ->
    offered asset.

(** ** The library ([VisualContentLibrary.tsx]) *)

Module Library.

(** [filterAssets]. *)
Definition filterAssets (searchQuery : string) (assets : list VisualAsset.t)
  : list VisualAsset.t :=
  if Js.truthy searchQuery then
    List.filter
      (fun asset =>
         JsStr.includes (Js.toLowerCase (VisualAsset.name asset))
                        (Js.toLowerCase searchQuery))
      assets
  else assets.

(** A [Set] of strings in insertion order. *)
Definition has (s : list string) (x : string) : bool :=
  existsb (String.eqb x) s.

(** [new Set([...prev, x])]. *)
Definition add (x : string) (prev : list string) : list string :=
  if has prev x then prev else prev ++ [x].

(** What the library and the application hold together: the ids marked as
    selected, and the timeline. *)
Record t := {
  selectedAssets : list string;
  timeline : list TimelineItem.t
}.

(** [handleAssetClick]: mark the id, then [onAssetSelect(asset)]. *)
Definition handleAssetClick (asset : VisualAsset.t) (now : Z) (st : t) : t :=
  {| selectedAssets := add (VisualAsset.id asset) (selectedAssets st);
     timeline := onAssetSelect (timeline st) asset now |}.

(** The Clear Selection button. *)
Definition clearSelection (st : t) : t :=
  {| selectedAssets := []; timeline := timeline st |}.

(** A card is highlighted when its asset's id is in the set. *)
Definition highlighted (st : t) (asset : VisualAsset.t) : bool :=
  has (selectedAssets st) (VisualAsset.id asset).

Definition clicks (cs : list (VisualAsset.t * Z)) (st : t) : t :=
  fold_left (fun s c => handleAssetClick (fst c) (snd c) s) cs st.

End Library.

(** * Properties *)

(** ** Timeline: adding and removing items *)

Section TimelineFacts.

Implicit Types (tl : list TimelineItem.t) (it : TimelineItem.t).

Lemma In_removeItem tl item it :
  In it (removeItem tl item) <->
  In it tl /\ TimelineItem.id it <> TimelineItem.id item.
Proof.
  unfold removeItem. rewrite filter_In.
  destruct (String.eqb_spec (TimelineItem.id it) (TimelineItem.id item));
    simpl; intuition congruence.
Qed.

Lemma removeItem_app tl1 tl2 item :
  removeItem (tl1 ++ tl2) item = removeItem tl1 item ++ removeItem tl2 item.
Proof. unfold removeItem. apply filter_app. Qed.

Lemma removeItem_others tl item :
  (forall it, In it tl -> TimelineItem.id it <> TimelineItem.id item) ->
  removeItem tl item = tl.
Proof.
  induction tl as [|x tl IH]; intros H; simpl; [reflexivity|].
  destruct (String.eqb_spec (TimelineItem.id x) (TimelineItem.id item))
    as [E|E].
  - exfalso. apply (H x); [now left | exact E].
  - simpl. f_equal. apply IH. intros it Hit. apply H. now right.
Qed.

(** Every item of a reachable timeline starts at 0. *)
Lemma reachable_startTime tl :
  reachable tl -> Forall (fun it => TimelineItem.startTime it = 0) tl.
Proof.
  induction 1 as [|tl asset now _ IH|tl item _ IH _].
  - constructor.
  - unfold onAssetSelect. apply Forall_app. split; [exact IH|].
    repeat constructor.
  - rewrite Forall_forall in *. intros it Hit.
    apply In_removeItem in Hit. apply IH, Hit.
Qed.

(** Two items that start at 0 and last a positive time overlap. *)
Lemma overlap_at_zero it1 it2 :
  TimelineItem.startTime it1 = 0 -> TimelineItem.startTime it2 = 0 ->
  0 < TimelineItem.duration it1 -> 0 < TimelineItem.duration it2 ->
  overlap it1 it2 = true.
Proof.
  intros S1 S2 D1 D2. unfold overlap, Js.ltb. rewrite S1, S2.
  apply andb_true_iff. split; apply negb_true_iff;
    (destruct (Qle_bool _ _) eqn:E; [|reflexivity]);
    apply Qle_bool_iff in E; Lqa.lra.
Qed.

End TimelineFacts.

Section TimelineClaims.

Implicit Types (tl : list TimelineItem.t) (it : TimelineItem.t).

Lemma app_inj_length (A : Type) (l1 l1' l2 l2' : list A) :
  l1 ++ l2 = l1' ++ l2' -> List.length l1 = List.length l1' ->
  l1 = l1' /\ l2 = l2'.
Proof.
  revert l1'. induction l1 as [|x l1 IH]; intros [|x' l1'] E L;
    simpl in *; try discriminate.
  - now split.
  - injection E as -> E. injection L as L.
    destruct (IH _ E L) as [-> ->]. now split.
Qed.

(** The assets the application itself offers never have a duration of 0:
    for the built-in library and for clips made with a positive duration per
    image, the item lasts the asset's duration when it has one, and
    3 seconds when it has none. *)
Lemma library_item_duration asset tl now :
  In asset (mockImages ++ mockVideos ++ mockClipart) ->
  TimelineItem.duration (newItem tl asset now)
  = match VisualAsset.duration asset with Some d => d | None => 3 end.
Proof.
  unfold mockImages, mockVideos, mockClipart. cbn [app In].
  intros H. repeat (destruct H as [<-|H]; [reflexivity|]). contradiction.
Qed.

Lemma created_clip_item_duration st now clip tl t :
  0 < clipDuration st ->
  createVideoClip st now = Some clip ->
  exists d, VisualAsset.duration clip = Some d /\ 0 < d /\
            TimelineItem.duration (newItem tl clip t) = d.
Proof.
  intros P. unfold createVideoClip.
  destruct (selectedImages st) as [|img imgs]; [discriminate|].
  cbn [map]. intros [= <-].
  set (d := inject_Z (Z.of_nat (List.length (img :: imgs)))
            * clipDuration st).
  assert (D : 0 < d).
  { unfold d. apply Qmult_lt_0_compat; [|exact P].
    change 0 with (inject_Z 0). rewrite <- Zlt_Qlt. cbn [List.length]. lia. }
  exists d. split; [reflexivity|]. split; [exact D|].
  change (Js.or_default (Some d) 3 = d). unfold Js.or_default.
  destruct (Qeq_bool d 0) eqn:Z0; [|reflexivity].
  apply Qeq_bool_iff in Z0. rewrite Z0 in D. discriminate.
Qed.

(** An asset that reaches [onAssetSelect] never has a duration of 0, so
    [asset.duration || 3] is the asset's duration when it has one. *)
Lemma offered_item_duration asset tl now :
  offered asset ->
  TimelineItem.duration (newItem tl asset now)
  = match VisualAsset.duration asset with Some d => d | None => 3 end.
Proof.
  intros [a I | st t a [L _] C | url nm t a S].
  - now apply library_item_duration.
  - assert (P : 0 < clipDuration st) by Lqa.lra.
    destruct (@created_clip_item_duration st t a tl now P C)
      as (d & E & _ & D).
    now rewrite D, E.
  - unfold saveEditedImage in S.
    destruct (negb (Js.truthy url)); [discriminate|].
    injection S as <-. reflexivity.
Qed.

(** C10: an item added for an asset the application offers (a library
    card, a created clip, a saved edit) starts at 0, sits at position
    "number of items already there", and lasts the asset's duration when
    it has one and 3 seconds otherwise; removal only drops items, so on
    every timeline reached by adding and removing, before and after the
    next add, all items start at 0. *)
Theorem C10_added_item_fields tl asset now :
  reachable tl -> offered asset ->
  let it := newItem tl asset now in
  onAssetSelect tl asset now = tl ++ [it] /\
  TimelineItem.startTime it = 0 /\
  TimelineItem.position it = List.length tl /\
  (forall d, VisualAsset.duration asset = Some d ->
             TimelineItem.duration it = d) /\
  (VisualAsset.duration asset = None -> TimelineItem.duration it = 3) /\
  (forall item other, In other (removeItem tl item) -> In other tl) /\
  Forall (fun i => TimelineItem.startTime i = 0) tl /\
  Forall (fun i => TimelineItem.startTime i = 0)
         (onAssetSelect tl asset now).
Proof.
  intros R O it.
  assert (D := @offered_item_duration asset tl now O). fold it in D.
  split; [reflexivity|]. split; [reflexivity|]. split; [reflexivity|].
  split; [|split; [|split; [|split]]].
  - intros d E. now rewrite D, E.
  - intros E. now rewrite D, E.
  - intros item other H. now apply In_removeItem in H.
  - now apply reachable_startTime.
  - apply reachable_startTime. now constructor.
Qed.

Lemma C10_added_item_fields_witness :
  TimelineItem.duration (newItem oneImage motionVideo 1700000000009) = 10 /\
  Forall (fun i => TimelineItem.startTime i = 0)
         (onAssetSelect oneImage motionVideo 1700000000009).
Proof.
  assert (R : reachable oneImage) by (apply reach_add, reach_empty).
  assert (O : offered motionVideo).
  { apply offered_card. cbn [mockImages mockVideos mockClipart app].
    do 6 right. left. reflexivity. }
  pose proof (@C10_added_item_fields oneImage motionVideo 1700000000009
                R O) as H.
  cbv zeta in H.
  destruct H as (_ & _ & _ & Hd & _ & _ & _ & Hall).
  split; [|exact Hall]. now apply Hd.
Defined.

(** C3, as worded, fails: a second image is placed although its interval
    [0,3) overlaps the first one's, and the reachable timeline then holds
    two overlapping items. *)
Lemma C3_overlap_counterexample :
  placementValid oneImage (newItem oneImage galleryImage 1700000000002)
    = false /\
  onAssetSelect oneImage galleryImage 1700000000002 <> oneImage /\
  reachable twoImages /\
  twoImages = [firstOfThree; newItem oneImage galleryImage 1700000000002] /\
  overlap firstOfThree (newItem oneImage galleryImage 1700000000002) = true.
Proof.
  repeat split.
  - intros H. apply (f_equal (@List.length _)) in H. discriminate.
  - apply reach_add, reach_add, reach_empty.
Qed.

(** C3 (amended): no add is rejected or validated.  Adding appends exactly
    one item and leaves the items already placed as they were; its start
    is 0, hence not negative; and since every item of a reachable
    timeline starts at 0, any two items of positive duration overlap. *)
Theorem C3_no_placement_validation tl asset now :
  reachable tl ->
  let tl' := onAssetSelect tl asset now in
  List.length tl' = S (List.length tl) /\
  firstn (List.length tl) tl' = tl /\
  0 <= TimelineItem.startTime (newItem tl asset now) /\
  (forall i j, In i tl' -> In j tl' ->
               0 < TimelineItem.duration i -> 0 < TimelineItem.duration j ->
               overlap i j = true).
Proof.
  intros R tl'. subst tl'. repeat split.
  - unfold onAssetSelect. rewrite length_app. simpl. lia.
  - unfold onAssetSelect. rewrite firstn_app, Nat.sub_diag, firstn_all.
    simpl. apply app_nil_r.
  - simpl. Lqa.lra.
  - intros i j Hi Hj Di Dj.
    assert (A : Forall (fun x => TimelineItem.startTime x = 0)
                       (onAssetSelect tl asset now))
      by (apply reachable_startTime; now constructor).
    rewrite Forall_forall in A.
    apply overlap_at_zero; auto.
Qed.

Lemma C3_no_placement_validation_witness :
  List.length twoImages = 2%nat /\
  overlap firstOfThree (newItem oneImage galleryImage 1700000000002) = true.
Proof.
  assert (R : reachable oneImage) by (apply reach_add, reach_empty).
  pose proof (C3_no_placement_validation galleryImage 1700000000002 R) as H.
  cbv zeta in H. destruct H as (L & _ & _ & O).
  split; [exact L|].
  apply O.
  - left. reflexivity.
  - right. left. reflexivity.
  - reflexivity.
  - reflexivity.
Defined.

(** C7, as worded, fails: removing the first of three items leaves the
    positions 1 and 2, not 0 and 1. *)
Lemma C7_positions_counterexample :
  In firstOfThree threeImages /\
  map TimelineItem.position threeImages = [0; 1; 2]%nat /\
  map TimelineItem.position (removeItem threeImages firstOfThree)
    = [1; 2]%nat /\
  map TimelineItem.position (removeItem threeImages firstOfThree)
    <> seq 0 (List.length (removeItem threeImages firstOfThree)).
Proof.
  repeat split.
  - left. reflexivity.
  - intros H. vm_compute in H. discriminate.
Qed.

(** C7 (amended): removing an item whose id no other item shares drops
    that item and keeps the others in order with their fields, position
    included, as they were; on a timeline numbered 0, 1, 2, ... the
    positions after the removed one therefore stay one too high. *)
Theorem C7_remove_keeps_positions tl1 item tl2 :
  (forall it, In it (tl1 ++ tl2) ->
              TimelineItem.id it <> TimelineItem.id item) ->
  let tl := tl1 ++ item :: tl2 in
  removeItem tl item = tl1 ++ tl2 /\
  map TimelineItem.position (removeItem tl item)
    = map TimelineItem.position tl1 ++ map TimelineItem.position tl2 /\
  (map TimelineItem.position tl = seq 0 (List.length tl) ->
   map TimelineItem.position (removeItem tl item)
     = seq 0 (List.length tl1)
       ++ seq (S (List.length tl1)) (List.length tl2)).
Proof.
  intros H tl.
  assert (E : removeItem tl item = tl1 ++ tl2).
  { subst tl. rewrite removeItem_app. simpl.
    rewrite String.eqb_refl. simpl.
    rewrite !removeItem_others; [reflexivity| |];
      intros it Hit; apply H, in_or_app; auto. }
  rewrite E. repeat split.
  - apply map_app.
  - subst tl. rewrite !map_app, length_app. simpl.
    rewrite seq_app. simpl. intros P.
    apply app_inj_length in P; [|now rewrite length_map, length_seq].
    destruct P as [P1 P2]. injection P2 as _ P2.
    now rewrite P1, P2.
Qed.

Lemma C7_remove_keeps_positions_witness :
  removeItem threeImages firstOfThree
    = [newItem oneImage galleryImage 1700000000002;
       newItem twoImages galleryImage 1700000000003] /\
  map TimelineItem.position (removeItem threeImages firstOfThree)
    = [1; 2]%nat.
Proof.
  pose proof (@C7_remove_keeps_positions [] firstOfThree
                [newItem oneImage galleryImage 1700000000002;
                 newItem twoImages galleryImage 1700000000003]) as H.
  cbv zeta in H.
  destruct H as (E & _ & P).
  - intros it [<-|[<-|[]]]; vm_compute; discriminate.
  - split; [exact E|]. apply P. reflexivity.
Defined.

End TimelineClaims.

(** ** Clip creator *)

Section ClipClaims.

Local Open Scope Q_scope.

Lemma ltb_true x y : Js.ltb x y = true <-> x < y.
Proof.
  unfold Js.ltb. rewrite negb_true_iff.
  destruct (Qle_bool y x) eqn:E.
  - apply Qle_bool_iff in E. split; [discriminate|]. intros L. Lqa.lra.
  - split; [intros _|reflexivity].
    apply Qnot_le_lt. intros L. apply Qle_bool_iff in L. congruence.
Qed.

Lemma ltb_false x y : Js.ltb x y = false <-> y <= x.
Proof.
  unfold Js.ltb. rewrite negb_false_iff. apply Qle_bool_iff.
Qed.

Lemma ratio_positive (w h : Z) :
  (0 < w)%Z -> (0 < h)%Z -> 0 < inject_Z w / inject_Z h.
Proof.
  intros Hw Hh. apply Qlt_shift_div_l.
  - change 0 with (inject_Z 0). now rewrite <- Zlt_Qlt.
  - rewrite Qmult_0_l. change 0 with (inject_Z 0). now rewrite <- Zlt_Qlt.
Qed.

(** A wide image: the height that keeps the ratio fits under 1080. *)
Lemma wide_height x :
  ClipCanvas.width / ClipCanvas.height < x ->
  0 < ClipCanvas.width / x /\ ClipCanvas.width / x <= ClipCanvas.height.
Proof.
  unfold ClipCanvas.width, ClipCanvas.height. intros L.
  assert (X : 0 < x) by (assert (0 < 1920 / 1080) by reflexivity; Lqa.lra).
  split.
  - apply Qlt_shift_div_l; [exact X|]. Lqa.lra.
  - apply Qle_shift_div_r; [exact X|].
    assert (E : 1920 / 1080 == 16 # 9) by reflexivity. rewrite E in L.
    Lqa.lra.
Qed.

(** C1, as worded, fails: three images at 3 s each with the "fade"
    transition make a clip of 9 s, not of 3*3 - 2*0.5 = 8 s. *)
Lemma C1_three_images_counterexample :
  option_map VisualAsset.duration
             (createVideoClip threeByThree 1700000000000)
    = Some (Some 9) /\
  ~ 9 == inject_Z 3 * 3 - (inject_Z 3 - 1) * (1 # 2).
Proof.
  split; [reflexivity|]. intros H. vm_compute in H. discriminate.
Qed.

(** C1 (amended): a clip made from n > 0 selected images at d seconds
    each lasts n*d seconds, whatever transition is selected: nothing is
    subtracted at the boundaries, and the label under the button shows the
    same value.  From two images on this differs from
    n*d - (n-1)*0.5. *)
Theorem C1_clip_duration st now :
  selectedImages st <> [] ->
  let n := inject_Z (Z.of_nat (List.length (selectedImages st))) in
  exists clip,
    createVideoClip st now = Some clip /\
    VisualAsset.type clip = video /\
    VisualAsset.duration clip = Some (n * clipDuration st) /\
    totalDurationLabel st = n * clipDuration st /\
    (forall tr,
      option_map VisualAsset.duration
                 (createVideoClip (setTransition tr st) now)
        = Some (Some (n * clipDuration st))) /\
    ((2 <= List.length (selectedImages st))%nat ->
     ~ n * clipDuration st == n * clipDuration st - (n - 1) * (1 # 2)).
Proof.
  intros NE n.
  assert (Two : (2 <= List.length (selectedImages st))%nat ->
                ~ n * clipDuration st
                  == n * clipDuration st - (n - 1) * (1 # 2)).
  { intros L Eq.
    assert (N : 2 <= n).
    { unfold n. change 2 with (inject_Z 2). rewrite <- Zle_Qle. lia. }
    Lqa.lra. }
  assert (D : forall tr,
             createVideoClip (setTransition tr st) now
               = createVideoClip st now) by reflexivity.
  unfold totalDurationLabel. fold n.
  assert (S : exists clip, createVideoClip st now = Some clip /\
                VisualAsset.type clip = video /\
                VisualAsset.duration clip = Some (n * clipDuration st)).
  { unfold createVideoClip. fold n.
    destruct (selectedImages st) as [|img imgs]; [contradiction|].
    simpl map. eexists. split; [reflexivity|]. split; reflexivity. }
  destruct S as (clip & E & T & L).
  exists clip. repeat (split; [assumption || reflexivity|]).
  split; [|exact Two].
  intros tr. rewrite D, E. simpl. now rewrite L.
Qed.

Lemma C1_clip_duration_witness :
  exists clip,
    createVideoClip threeByThree 1700000000000 = Some clip /\
    VisualAsset.duration clip = Some (inject_Z 3 * 3).
Proof.
  destruct (@C1_clip_duration threeByThree 1700000000000)
    as (clip & E & _ & D & _).
  - discriminate.
  - exists clip. split; [exact E | exact D].
Defined.

(** C9: a frame shows its image scaled into the 1920x1080 canvas with the
    ratio w/h kept, inside the canvas and centred: a wider image spans
    the full width with equal bands above and below, any other image
    spans the full height with equal bands left and right. *)
Theorem C9_fit_to_canvas img :
  (0 < img_width img)%Z -> (0 < img_height img)%Z ->
  let r := frame_rect (renderFrame img) in
  let ratio := inject_Z (img_width img) / inject_Z (img_height img) in
  drawWidth r == ratio * drawHeight r /\
  0 < drawWidth r /\ 0 < drawHeight r /\
  0 <= drawX r /\ 0 <= drawY r /\
  drawX r + drawWidth r <= ClipCanvas.width /\
  drawY r + drawHeight r <= ClipCanvas.height /\
  (ClipCanvas.width / ClipCanvas.height < ratio ->
     drawWidth r == ClipCanvas.width /\ drawX r == 0 /\
     drawY r + drawHeight r + drawY r == ClipCanvas.height) /\
  (ratio <= ClipCanvas.width / ClipCanvas.height ->
     drawHeight r == ClipCanvas.height /\ drawY r == 0 /\
     drawX r + drawWidth r + drawX r == ClipCanvas.width).
Proof.
  intros Hw Hh r ratio.
  assert (P : 0 < ratio) by now apply ratio_positive.
  assert (NZ : ~ ratio == 0) by (intros Z0; rewrite Z0 in P; discriminate).
  subst r. unfold renderFrame, fitToCanvas. simpl frame_rect.
  fold ratio.
  destruct (Js.ltb (ClipCanvas.width / ClipCanvas.height) ratio) eqn:C.
  - apply ltb_true in C. destruct (wide_height C) as [H0 H1].
    cbn [drawX drawY drawWidth drawHeight].
    set (h := ClipCanvas.width / ratio) in *.
    assert (E : ClipCanvas.width == ratio * h)
      by (unfold h; field; exact NZ).
    unfold ClipCanvas.width, ClipCanvas.height in *.
    assert (Y : (1080 - h) / 2 == (1 # 2) * (1080 - h)) by field.
    repeat split; intros; try rewrite Y; Lqa.lra.
  - apply ltb_false in C.
    cbn [drawX drawY drawWidth drawHeight].
    set (w := ClipCanvas.height * ratio) in *.
    unfold ClipCanvas.width, ClipCanvas.height in *.
    assert (W0 : 0 < w) by (unfold w; Lqa.nra).
    assert (E : 1920 / 1080 == 16 # 9) by reflexivity.
    rewrite E in C.
    assert (W1 : w <= 1920) by (unfold w; Lqa.lra).
    assert (X : (1920 - w) / 2 == (1 # 2) * (1920 - w)) by field.
    repeat split; intros; try rewrite X; unfold w in *; Lqa.lra.
Qed.

Lemma C9_fit_to_canvas_witness :
  let r := frame_rect (renderFrame (photo "a.png" 4000 1000)) in
  drawWidth r == 1920 /\ drawHeight r == 480 /\ drawY r == 300.
Proof.
  destruct (@C9_fit_to_canvas (photo "a.png" 4000 1000))
    as (_ & _ & _ & _ & _ & _ & _ & Wide & _); try reflexivity.
  destruct Wide as (Ew & _ & _); [reflexivity|].
  cbv zeta. split; [exact Ew|]. split; reflexivity.
Defined.

End ClipClaims.

(** ** Export *)

Section ExportClaims.

Import ExportControls.
Local Open Scope Z_scope.

Implicit Types (st : ExportControls.t) (n k : nat).

Lemma ticks_add n m st :
  ticks (n + m) st =
  let (st1, out1) := ticks n st in
  let (st2, out2) := ticks m st1 in
  (st2, out1 ++ out2).
Proof.
  revert st. induction n as [|n IH]; intros st; simpl.
  - now destruct (ticks m st).
  - destruct (tick st) as [s1 o1]. rewrite IH.
    destruct (ticks n s1) as [s2 o2]. destruct (ticks m s2) as [s3 o3].
    now rewrite app_assoc.
Qed.

(** Once the interval is cleared nothing fires any more. *)
Lemma ticks_cleared n st :
  progressInterval st = None -> ticks n st = (st, []).
Proof.
  intros H. induction n as [|n IH]; simpl; [reflexivity|].
  unfold tick. rewrite H. now rewrite IH.
Qed.

(** After the 21st period a session has ended for good. *)
Lemma uninterrupted_settled st n :
  (21 <= n)%nat -> uninterrupted st n = uninterrupted st 21.
Proof.
  intros H. replace n with (21 + (n - 21))%nat by lia.
  generalize (n - 21)%nat as m. clear n H. intros m.
  unfold uninterrupted, handleExport. rewrite ticks_add.
  destruct (ticks 21 _) as [s1 o1] eqn:E.
  assert (C : progressInterval s1 = None).
  { change s1 with (fst (s1, o1)). rewrite <- E. reflexivity. }
  rewrite (@ticks_cleared m s1 C). now rewrite app_nil_r.
Qed.

(** The button is shown exactly when no interval is live. *)
Lemma reachable_interval st :
  reachable st ->
  isExporting st = match progressInterval st with
                   | Some _ => true
                   | None => false
                   end.
Proof.
  induction 1 as [| f st _ IH | q st _ IH | st _ IH _ | st _ IH];
    try reflexivity; try exact IH.
  unfold tick. destruct (progressInterval st) as [[f q]|] eqn:E.
  - destruct (100 <=? exportProgress st); simpl; [reflexivity|].
    rewrite ?E. exact IH.
  - simpl. rewrite ?E. exact IH.
Qed.

(** The first 20 periods: still exporting, the progress is 5 per
    period. *)
Lemma uninterrupted_running st n :
  (n <= 20)%nat ->
  uninterrupted st n =
  ({| selectedFormat := selectedFormat st;
      selectedQuality := selectedQuality st;
      isExporting := true;
      exportProgress := 5 * Z.of_nat n;
      progressInterval := Some (selectedFormat st, selectedQuality st) |},
   map (fun i => Progress (5 * Z.of_nat i)) (seq 0 (S n))).
Proof.
  intros H.
  do 21 (destruct n as [|n]; [reflexivity|]).
  exfalso. lia.
Qed.

(** From the 21st period on: ended, [onExport] was called once. *)
Lemma uninterrupted_ended st n :
  (21 <= n)%nat ->
  uninterrupted st n =
  ({| selectedFormat := selectedFormat st;
      selectedQuality := selectedQuality st;
      isExporting := false;
      exportProgress := 100;
      progressInterval := None |},
   map (fun i => Progress (5 * Z.of_nat i)) (seq 0 21)
   ++ [OnExport (selectedFormat st) (selectedQuality st); Progress 100]).
Proof.
  intros H. rewrite (uninterrupted_settled st H). reflexivity.
Qed.

Lemma progressValues_app out1 out2 :
  progressValues (out1 ++ out2) = progressValues out1 ++ progressValues out2.
Proof. unfold progressValues. apply flat_map_app. Qed.

Lemma onExportCalls_app out1 out2 :
  onExportCalls (out1 ++ out2) = onExportCalls out1 ++ onExportCalls out2.
Proof. unfold onExportCalls. apply flat_map_app. Qed.

Lemma progressValues_steps (l : list nat) :
  progressValues (map (fun i => Progress (5 * Z.of_nat i)) l)
  = map (fun i => 5 * Z.of_nat i) l.
Proof.
  unfold progressValues.
  induction l as [|x l IH]; simpl; [reflexivity | now f_equal].
Qed.

Lemma onExportCalls_steps (l : list nat) :
  onExportCalls (map (fun i => Progress (5 * Z.of_nat i)) l) = [].
Proof.
  unfold onExportCalls.
  induction l as [|x l IH]; simpl; [reflexivity | exact IH].
Qed.

(** [onExport] is called once, and not before the 21st period. *)
Lemma uninterrupted_calls st n :
  onExportCalls (snd (uninterrupted st n))
  = (if (21 <=? n)%nat then [(selectedFormat st, selectedQuality st)]
     else []).
Proof.
  destruct (le_lt_dec n 20) as [L|L].
  - rewrite (uninterrupted_running st L). cbn [snd].
    rewrite onExportCalls_steps.
    now replace (21 <=? n)%nat with false
      by (symmetry; apply Nat.leb_gt; lia).
  - rewrite (uninterrupted_ended st L). cbn [snd].
    rewrite onExportCalls_app, onExportCalls_steps.
    now replace (21 <=? n)%nat with true
      by (symmetry; apply Nat.leb_le; lia).
Qed.

Lemma steps_sorted a len :
  StronglySorted Z.le (map (fun i => 5 * Z.of_nat i) (seq a len)).
Proof.
  revert a. induction len as [|len IH]; intros a; cbn [seq map];
    constructor.
  - apply IH.
  - apply Forall_forall. intros v Hv.
    apply in_map_iff in Hv. destruct Hv as (i & <- & Hi).
    apply in_seq in Hi. lia.
Qed.

Lemma steps_bounded len :
  (len <= 21)%nat ->
  Forall (fun v => 0 <= v <= 100)
         (map (fun i => 5 * Z.of_nat i) (seq 0 len)).
Proof.
  intros H. apply Forall_forall. intros v Hv.
  apply in_map_iff in Hv. destruct Hv as (i & <- & Hi).
  apply in_seq in Hi. lia.
Qed.

Lemma sorted_snoc (l : list Z) (x : Z) :
  StronglySorted Z.le l -> Forall (fun v => v <= x) l ->
  StronglySorted Z.le (l ++ [x]).
Proof.
  induction 1 as [|y l S IH F]; intros B; simpl.
  - repeat constructor.
  - inversion B as [|? ? By Bl]; subst. constructor.
    + apply IH, Bl.
    + apply Forall_app. split; [exact F|]. repeat constructor. exact By.
Qed.

(** Which period calls [onExport]: the one that finds the progress at 100
    with the export still running, that is the 21st. *)
Lemma uninterrupted_fires st k :
  let before := fst (uninterrupted st k) in
  let fired := onExportCalls (snd (tick before)) in
  (fired <> [] <->
   exportProgress before = 100 /\ isExporting before = true) /\
  (fired <> [] <-> k = 20%nat).
Proof.
  destruct (le_lt_dec k 20) as [L|L].
  - rewrite (uninterrupted_running st L). cbv zeta. cbn [fst].
    unfold tick. cbn [progressInterval exportProgress isExporting].
    remember (5 * Z.of_nat k) as p eqn:Hp.
    destruct (100 <=? p) eqn:C;
      cbn [snd onExportCalls flat_map app].
    + apply Z.leb_le in C.
      split; split; intros; try lia; try discriminate.
    + apply Z.leb_gt in C.
      split; split; intros H; try lia; try congruence.
  - rewrite (uninterrupted_ended st L). cbv zeta. simpl.
    split; split; intros H; try lia; try congruence.
Qed.

Lemma uninterrupted_sorted st n :
  StronglySorted Z.le (progressValues (snd (uninterrupted st n))).
Proof.
  destruct (le_lt_dec n 20) as [L|L].
  - rewrite (uninterrupted_running st L). cbn [snd].
    rewrite progressValues_steps. apply steps_sorted.
  - rewrite (uninterrupted_ended st L). cbn [snd].
    rewrite progressValues_app, progressValues_steps.
    apply sorted_snoc; [apply steps_sorted|].
    apply Forall_impl with (P := fun v => 0 <= v <= 100);
      [intros; lia | apply steps_bounded; lia].
Qed.

Lemma uninterrupted_bounded st n :
  Forall (fun v => 0 <= v <= 100)
         (progressValues (snd (uninterrupted st n))).
Proof.
  destruct (le_lt_dec n 20) as [L|L].
  - rewrite (uninterrupted_running st L). cbn [snd].
    rewrite progressValues_steps. apply steps_bounded; lia.
  - rewrite (uninterrupted_ended st L). cbn [snd].
    rewrite progressValues_app, progressValues_steps.
    apply Forall_app. split; [apply steps_bounded; lia|].
    repeat constructor; lia.
Qed.

(** The timer callback behaves alike on states that agree on what it
    reads. *)
Lemma tick_sameTimer s1 s2 :
  sameTimer s1 s2 ->
  snd (tick s1) = snd (tick s2) /\ sameTimer (fst (tick s1)) (fst (tick s2)).
Proof.
  intros (E & P & I). unfold tick, sameTimer. rewrite I, P.
  destruct (progressInterval s2) as [[f q]|] eqn:I2;
    [destruct (100 <=? exportProgress s2)|];
    cbn [fst snd isExporting exportProgress progressInterval];
    repeat split; congruence.
Qed.

(** Changing the selection during an export does not reach the timer: a
    run of events lets observe what its timer periods alone do. *)
Lemma run_ticks evs :
  forall s1 s2,
    sameTimer s1 s2 ->
    snd (run evs s1) = snd (ticks (periods evs) s2) /\
    sameTimer (fst (run evs s1)) (fst (ticks (periods evs) s2)).
Proof.
  induction evs as [|ev evs IH]; intros s1 s2 H; [now split|].
  destruct ev as [|f|q].
  - change (periods (Tick :: evs)) with (S (periods evs)).
    cbn [run step ticks].
    destruct (tick_sameTimer H) as [O T].
    destruct (tick s1) as [a oa], (tick s2) as [b ob].
    cbn [fst snd] in O, T. subst ob.
    destruct (IH a b T) as [O' T'].
    destruct (run evs a) as [a' oa'], (ticks (periods evs) b) as [b' ob'].
    cbn [fst snd] in *. subst ob'. now split.
  - change (periods (SelectFormat f :: evs)) with (periods evs).
    cbn [run step].
    assert (T : sameTimer (setSelectedFormat f s1) s2) by exact H.
    destruct (IH _ _ T) as [O' T'].
    destruct (run evs (setSelectedFormat f s1)) as [a' oa'].
    cbn [fst snd app] in *. now split.
  - change (periods (SelectQuality q :: evs)) with (periods evs).
    cbn [run step].
    assert (T : sameTimer (setSelectedQuality q s1) s2) by exact H.
    destruct (IH _ _ T) as [O' T'].
    destruct (run evs (setSelectedQuality q s1)) as [a' oa'].
    cbn [fst snd app] in *. now split.
Qed.

Lemma session_uninterrupted st evs :
  snd (session st evs) = snd (uninterrupted st (periods evs)) /\
  sameTimer (fst (session st evs)) (fst (uninterrupted st (periods evs))).
Proof.
  unfold session, uninterrupted, handleExport.
  match goal with
  | |- context [run evs ?s0] =>
      destruct (@run_ticks evs s0 s0) as [O T];
        [repeat split|];
        destruct (run evs s0) as [a oa], (ticks (periods evs) s0) as [b ob]
  end.
  cbn [fst snd] in *. subst ob. now split.
Qed.

(** C8: an export session starts with no timer running; the values it
    hands to the progress bar never decrease and stay within 0..100, and
    [onExport] is called once, by the timer period that finds the progress
    at 100 while the export is still running, which is the 21st, and by no
    other. *)
Theorem C8_progress_monotone st evs :
  reachable st -> isExporting st = false ->
  let out := snd (session st evs) in
  progressInterval st = None /\
  StronglySorted Z.le (progressValues out) /\
  Forall (fun v => 0 <= v <= 100) (progressValues out) /\
  onExportCalls out
    = (if (21 <=? periods evs)%nat
       then [(selectedFormat st, selectedQuality st)]
       else []) /\
  forall earlier,
    let before := fst (session st earlier) in
    let fired := onExportCalls (snd (tick before)) in
    (fired <> [] <->
     exportProgress before = 100 /\ isExporting before = true) /\
    (fired <> [] <-> periods earlier = 20%nat).
Proof.
  intros R Idle out. subst out.
  destruct (session_uninterrupted st evs) as [O _]. rewrite O.
  split.
  { pose proof (reachable_interval R) as I. rewrite Idle in I.
    now destruct (progressInterval st). }
  split; [apply uninterrupted_sorted|].
  split; [apply uninterrupted_bounded|].
  split; [apply uninterrupted_calls|].
  intros earlier before fired. subst before fired.
  destruct (session_uninterrupted st earlier) as [_ T].
  destruct (tick_sameTimer T) as [F _]. rewrite F.
  destruct T as (E & P & _). rewrite E, P.
  apply uninterrupted_fires.
Qed.

Lemma C8_progress_monotone_witness :
  let evs := repeat Tick 12 ++ [SelectFormat "webm"] ++ repeat Tick 10 in
  progressValues (snd (session initial evs))
    = [0; 5; 10; 15; 20; 25; 30; 35; 40; 45; 50; 55; 60; 65; 70; 75; 80;
       85; 90; 95; 100; 100] /\
  StronglySorted Z.le (progressValues (snd (session initial evs))) /\
  onExportCalls (snd (session initial evs)) = [("mp4", "1080p")%string].
Proof.
  intros evs.
  destruct (@C8_progress_monotone initial evs reach_initial eq_refl)
    as (_ & S & _ & C & _).
  split; [reflexivity|]. split; [exact S | exact C].
Defined.

(** C2, as worded, fails: with the gap [4,5) on the timeline the export
    runs its counter and ends by calling [onExport]; it does not fail
    with [IncompleteTimeline]. *)
Lemma C2_gapped_export_counterexample :
  hasGap (timelineItems gappedProject) 5 /\
  resultOf (snd (exportVideo gappedProject (repeat Tick 21)))
    = Exported "mp4" "1080p" /\
  resultOf (snd (exportVideo gappedProject (repeat Tick 21)))
    <> Failed IncompleteTimeline.
Proof.
  split.
  - exists 4%Q. repeat split; discriminate.
  - split; [vm_compute; reflexivity|].
    intros H. vm_compute in H. discriminate.
Qed.

(** C2 (amended): export never looks at the timeline.  Whatever items and
    audio the project holds, gaps or not, a session started while the
    button is shown (no timer is running then) is still running through
    its first 20 timer periods and has ended with the call of [onExport],
    for the format and quality selected at the click, from the 21st on; it
    never ends in [IncompleteTimeline], and what it lets observe is
    progress values and that one call. *)
Theorem C2_export_ignores_timeline app evs :
  reachable (exportControls app) ->
  isExporting (exportControls app) = false ->
  let out := snd (exportVideo app evs) in
  progressInterval (exportControls app) = None /\
  resultOf out
    = (if (21 <=? periods evs)%nat
       then Exported (selectedFormat (exportControls app))
                     (selectedQuality (exportControls app))
       else Running) /\
  resultOf out <> Failed IncompleteTimeline /\
  (forall audio items,
      exportVideo {| audioFile := audio; timelineItems := items;
                     exportControls := exportControls app |} evs
      = exportVideo app evs) /\
  onExportCalls out
    = (if (21 <=? periods evs)%nat
       then [(selectedFormat (exportControls app),
              selectedQuality (exportControls app))]
       else []).
Proof.
  intros R I out.
  assert (C : onExportCalls out
              = (if (21 <=? periods evs)%nat
                 then [(selectedFormat (exportControls app),
                        selectedQuality (exportControls app))]
                 else [])).
  { subst out. unfold exportVideo.
    destruct (session_uninterrupted (exportControls app) evs) as [O _].
    rewrite O. apply uninterrupted_calls. }
  assert (E : resultOf out
    = (if (21 <=? periods evs)%nat
       then Exported (selectedFormat (exportControls app))
                     (selectedQuality (exportControls app))
       else Running)).
  { unfold resultOf. rewrite C. now destruct (21 <=? periods evs)%nat. }
  split.
  { pose proof (reachable_interval R) as J. rewrite I in J.
    now destruct (progressInterval (exportControls app)). }
  repeat split; try assumption.
  rewrite E. destruct (21 <=? periods evs)%nat; discriminate.
Qed.

Lemma C2_export_ignores_timeline_witness :
  resultOf (snd (exportVideo gappedProject (repeat Tick 30)))
    = Exported "mp4" "1080p".
Proof.
  destruct (@C2_export_ignores_timeline gappedProject (repeat Tick 30)
              reach_initial eq_refl) as (_ & E & _).
  exact E.
Defined.

End ExportClaims.

(** ** Image editor *)

Section EditorFacts.

Lemma editCalls_drawn ed img w h :
  drawn (editCalls ed img w h freshContext)
  = DrawImage img 0 0 (imageState ed w h)
    :: (if Js.truthy (textOverlay ed)
        then [FillText (textOverlay ed) (IZR w / 2) (IZR h / 2)
                       (textState ed w h)]
        else []).
Proof.
  unfold editCalls, imageState, textState, editFilter, Ctx.andThen.
  destruct (filterTemplate _ _ _ _); destruct (Js.truthy _); reflexivity.
Qed.

(** [save] and [restore] bracket the calls: the context ends in the state
    it started in. *)
Lemma editCalls_restores ed img w h :
  current (editCalls ed img w h freshContext) = defaultState /\
  saved (editCalls ed img w h freshContext) = [].
Proof.
  unfold editCalls, Ctx.andThen.
  destruct (filterTemplate _ _ _ _); destruct (Js.truthy _);
    split; reflexivity.
Qed.

(** Every catalog entry other than "None" is a non-empty list of
    well-formed functions, and "None" is never looked up. *)
Lemma catalogPart_functions sel fl :
  catalogPart sel = Some fl ->
  exists fn fs, fl = Css.functions (fn :: fs) /\
                forallb Css.wellFormed (fn :: fs) = true.
Proof.
  unfold catalogPart.
  destruct (String.eqb_spec sel "none") as [|N]; [discriminate|].
  destruct (find _ imageFilters) as [f|] eqn:F; [|discriminate].
  intros [= <-]. apply find_some in F. destruct F as [I P].
  apply String.eqb_eq in P. unfold imageFilters in I. simpl in I.
  repeat (destruct I as [<-|I]); try contradiction;
    try (do 2 eexists; split; reflexivity).
  vm_compute in P. congruence.
Qed.

Lemma filterTemplate_sliders b c s sel :
  (0 <= b)%Z -> (0 <= c)%Z -> (0 <= s)%Z ->
  exists fs,
    catalogFilter sel = (match fs with
                         | [] => Css.none
                         | _ => Css.functions fs
                         end) /\
    filterTemplate b c s sel
    = Some (Css.functions
              ([Css.brightness b; Css.contrast c; Css.saturate s] ++ fs)).
Proof.
  intros Hb Hc Hs. unfold filterTemplate, catalogFilter.
  assert (W : forall fs, forallb Css.wellFormed fs = true ->
            forallb Css.wellFormed
              ([Css.brightness b; Css.contrast c; Css.saturate s] ++ fs)
            = true).
  { intros fs H. cbn [app forallb Css.wellFormed]. rewrite H.
    rewrite !andb_true_r, !andb_true_iff. repeat split; now apply Z.leb_le. }
  destruct (catalogPart sel) as [fl|] eqn:E.
  - destruct (catalogPart_functions _ E) as (fn & fs & -> & F).
    exists (fn :: fs). rewrite (W _ F). split; reflexivity.
  - exists []. split; [reflexivity|].
    pose proof (W [] eq_refl) as W0. cbn [app] in W0 |- *.
    now rewrite W0.
Qed.

(** The entries of the editor's matrix: a rotation about the centre of
    the canvas. *)
Lemma editMatrix_entries ed w h :
  let t := (IZR (rotation ed) * PI / 180)%R in
  let cx := (IZR w / 2)%R in
  let cy := (IZR h / 2)%R in
  editMatrix ed w h
  = {| Matrix.a := cos t; Matrix.b := sin t;
       Matrix.c := (- sin t)%R; Matrix.d := cos t;
       Matrix.e := (cx - cos t * cx + sin t * cy)%R;
       Matrix.f := (cy - sin t * cx - cos t * cy)%R |}.
Proof.
  intros t cx cy.
  unfold editMatrix, Matrix.mul, Matrix.identity, Matrix.translation,
    Matrix.rotation.
  cbn [Matrix.a Matrix.b Matrix.c Matrix.d Matrix.e Matrix.f].
  fold t. subst cx cy. f_equal; field.
Qed.

(** The centre of the canvas stays where it is. *)
Lemma editMatrix_fixes_centre ed w h :
  Matrix.apply (editMatrix ed w h) (IZR w / 2, IZR h / 2)%R
  = (IZR w / 2, IZR h / 2)%R.
Proof.
  rewrite editMatrix_entries. unfold Matrix.apply.
  cbn [Matrix.a Matrix.b Matrix.c Matrix.d Matrix.e Matrix.f].
  f_equal; field.
Qed.

(** Without rotation the matrix is the identity. *)
Lemma editMatrix_unrotated ed w h :
  rotation ed = 0%Z -> editMatrix ed w h = Matrix.identity.
Proof.
  intros H. rewrite editMatrix_entries, H.
  replace (0 * PI / 180)%R with 0%R by field.
  rewrite cos_0, sin_0. unfold Matrix.identity. f_equal; field.
Qed.

(** Half a turn sends a point to the opposite side of the centre. *)
Lemma editMatrix_half_turn ed w h x y :
  rotation ed = 180%Z ->
  Matrix.apply (editMatrix ed w h) (x, y)
  = (IZR w - x, IZR h - y)%R.
Proof.
  intros H. rewrite editMatrix_entries, H.
  replace (180 * PI / 180)%R with PI by field.
  rewrite cos_PI, sin_PI. unfold Matrix.apply.
  cbn [Matrix.a Matrix.b Matrix.c Matrix.d Matrix.e Matrix.f].
  f_equal; field.
Qed.

(** *** Pixels *)









End EditorFacts.

Section PlainBackendFacts.

(** Drawn over transparent black, a layer comes out as it went in. *)
Lemma over_clear (src : list Z) :
  forall n, PlainBackend.over src (repeat 0%Z n) = src.
Proof.
  revert src. fix IH 1.
  intros [|sr [|sg [|sb [|sa rest]]]] n; try reflexivity;
    try (destruct n; reflexivity).
  destruct n as [|[|[|[|n]]]]; try reflexivity.
  cbn [repeat PlainBackend.over PlainBackend.overPixel Z.eqb].
  f_equal. f_equal. f_equal. f_equal. apply IH.
Qed.

Lemma plain_composite_clear layer :
  composite PlainBackend.backend layer
            (clear (rwidth layer) (rheight layer)) = layer.
Proof.
  destruct layer as [w h d]. unfold clear. cbn.
  now rewrite over_clear.
Qed.

End PlainBackendFacts.

Section EditorClaims.

Variable B : Backend.

Lemma applyFilter_app fs1 fs2 r :
  applyFilter B (Css.functions (fs1 ++ fs2)) r
  = fold_left (fun acc fn => applyFn B fn acc) fs2
              (applyFilter B (Css.functions fs1) r).
Proof. unfold applyFilter. apply fold_left_app. Qed.

Lemma applyFilter_tail fs r :
  applyFilter B (match fs with [] => Css.none | _ => Css.functions fs end) r
  = fold_left (fun acc fn => applyFn B fn acc) fs r.
Proof. now destruct fs. Qed.

(** C6: the image is filtered by the brightness function first, the
    contrast function on its result, the saturation function on that, and
    last by the functions of the selected catalog entry, none for
    "none"; the whole chain runs on the image as placed under the
    editor's matrix. *)
Theorem C6_colour_stage_order ed img :
  selectedImage ed = Some img ->
  (0 <= brightness ed)%Z -> (0 <= contrast ed)%Z ->
  (0 <= saturation ed)%Z ->
  let w := rwidth img in
  let h := rheight img in
  let chain r :=
    applyFilter B (catalogFilter (selectedFilter ed))
      (applyFn B (Css.saturate (saturation ed))
         (applyFn B (Css.contrast (contrast ed))
            (applyFn B (Css.brightness (brightness ed)) r))) in
  exists c rest,
    applyImageEdits ed = Some c /\
    drawn (context c) = DrawImage img 0 0 (imageState ed w h) :: rest /\
    (forall r, applyFilter B (filter (imageState ed w h)) r = chain r) /\
    layerOf B w h (DrawImage img 0 0 (imageState ed w h))
      = chain (resample B (editMatrix ed w h) 0 0 img w h) /\
    catalogFilter "none" = Css.none.
Proof.
  intros Sel Hb Hc Hs w h chain.
  destruct (filterTemplate_sliders (selectedFilter ed) Hb Hc Hs)
    as (fs & Tail & Whole).
  assert (F : forall r, applyFilter B (filter (imageState ed w h)) r
                        = chain r).
  { intros r. subst chain. cbn [imageState filter]. unfold editFilter.
    rewrite Whole, Tail, applyFilter_app, applyFilter_tail.
    reflexivity. }
  unfold applyImageEdits. rewrite Sel. fold w h.
  eexists. eexists. split; [reflexivity|].
  cbn [context]. rewrite editCalls_drawn.
  split; [reflexivity|]. split; [exact F|]. split; [|reflexivity].
  cbn [layerOf]. rewrite F. reflexivity.
Qed.

(** C5 (amended): a non-empty caption is the last of the two drawing
    calls, filled with the filter reset to none, in the chosen colour and
    pixel size, centred on the canvas centre, and composited over the
    filtered image; but it is filled under the same matrix as the image,
    so it turns with the image about the centre, which stays its
    anchor. *)
Theorem C5_text_overlay ed img :
  selectedImage ed = Some img ->
  Js.truthy (textOverlay ed) = true ->
  let w := rwidth img in
  let h := rheight img in
  let cx := (IZR w / 2)%R in
  let cy := (IZR h / 2)%R in
  exists c gi gt,
    applyImageEdits ed = Some c /\
    drawn (context c)
      = [DrawImage img 0 0 gi; FillText (textOverlay ed) cx cy gt] /\
    filter gt = Css.none /\
    fillStyle gt = textColor ed /\
    font gt = {| font_px := textSize ed; font_family := "Arial" |} /\
    textAlign gt = align_center /\
    ctm gt = ctm gi /\
    ctm gt = editMatrix ed w h /\
    Matrix.apply (ctm gt) (cx, cy) = (cx, cy) /\
    render B c
      = composite B (glyphs B gt (textOverlay ed) cx cy w h)
          (composite B (layerOf B w h (DrawImage img 0 0 gi))
                     (clear w h)).
Proof.
  intros Sel Txt w h cx cy.
  exists {| canvas_width := w; canvas_height := h;
            context := editCalls ed img w h freshContext |}.
  exists (imageState ed w h), (textState ed w h).
  split; [unfold applyImageEdits; now rewrite Sel|].
  assert (D : drawn (editCalls ed img w h freshContext)
              = [DrawImage img 0 0 (imageState ed w h);
                 FillText (textOverlay ed) cx cy (textState ed w h)])
    by (rewrite editCalls_drawn, Txt; reflexivity).
  cbn [context]. split; [exact D|].
  repeat (split; [reflexivity|]).
  split; [apply editMatrix_fixes_centre|].
  unfold render. cbn [context canvas_width canvas_height].
  rewrite D. reflexivity.
Qed.

End EditorClaims.

Lemma C6_colour_stage_order_witness :
  exists c rest,
    applyImageEdits vintageEdit = Some c /\
    drawn (context c)
      = DrawImage samplePixels 0 0 (imageState vintageEdit 2 1) :: rest /\
    filter (imageState vintageEdit 2 1)
      = Css.functions [Css.brightness 150; Css.contrast 80;
                       Css.saturate 120; Css.sepia 50; Css.contrast 120;
                       Css.brightness 110].
Proof.
  destruct (@C6_colour_stage_order PlainBackend.backend vintageEdit
              samplePixels eq_refl)
    as (c & rest & E & D & _); try (cbn; lia).
  exists c, rest. split; [exact E|]. split; [exact D | reflexivity].
Defined.

(** C5, as worded, fails: with the image turned by 180 degrees the
    caption is filled under that same rotation; its matrix is not the
    identity and sends the point right of the centre to the left of it. *)
Lemma C5_rotated_text_counterexample :
  exists c g,
    applyImageEdits captionedUpsideDown = Some c /\
    last (drawn (context c)) (DrawImage samplePixels 0 0 defaultState)
      = FillText "Hi" (2 / 2) (1 / 2) g /\
    filter g = Css.none /\
    ctm g <> Matrix.identity /\
    Matrix.apply (ctm g) (2, 1 / 2)%R = (0, 1 / 2)%R.
Proof.
  assert (T : Matrix.apply (editMatrix captionedUpsideDown 2 1)
                           (2, 1 / 2)%R = (0, 1 / 2)%R).
  { rewrite editMatrix_half_turn by reflexivity. f_equal; field. }
  eexists. exists (textState captionedUpsideDown 2 1).
  split; [reflexivity|]. cbn [context]. rewrite editCalls_drawn.
  split; [reflexivity|]. split; [reflexivity|].
  cbn [textState ctm]. split; [|exact T].
  intros E. rewrite E in T. unfold Matrix.apply, Matrix.identity in T.
  cbn [Matrix.a Matrix.b Matrix.c Matrix.d Matrix.e Matrix.f] in T.
  injection T as T _. lra.
Qed.

Lemma C5_text_overlay_witness :
  exists c gi gt,
    applyImageEdits captionedUpsideDown = Some c /\
    drawn (context c)
      = [DrawImage samplePixels 0 0 gi; FillText "Hi" (2 / 2) (1 / 2) gt] /\
    filter gt = Css.none /\ ctm gt = ctm gi.
Proof.
  destruct (@C5_text_overlay PlainBackend.backend captionedUpsideDown
              samplePixels eq_refl eq_refl)
    as (c & gi & gt & E & D & F & _ & _ & _ & M & _).
  exists c, gi, gt. repeat split; assumption.
Defined.

(** At the identity settings the editor makes one drawing call: the image
    at the origin, under the identity matrix, with the three sliders'
    functions at 100%. *)
Lemma identityEdits_drawn img colour size w h :
  drawn (editCalls (identityEdits img colour size) img w h freshContext)
  = [DrawImage img 0 0
       {| ctm := Matrix.identity;
          filter := Css.functions [Css.brightness 100; Css.contrast 100;
                                   Css.saturate 100];
          fillStyle := fillStyle defaultState;
          font := font defaultState;
          textAlign := textAlign defaultState |}].
Proof.
  rewrite editCalls_drawn. cbn [identityEdits textOverlay Js.truthy].
  unfold imageState. rewrite editMatrix_unrotated by reflexivity.
  reflexivity.
Qed.

Section PremultipliedFacts.

Import PremultipliedBackend.








End PremultipliedFacts.

Section IdentityEdits.




End IdentityEdits.



(** * More properties *)

(** ** Numbers and text *)

Section NumberFacts.

Local Open Scope Q_scope.

Lemma ltb_true_iff x y : Js.ltb x y = true <-> x < y.
Proof.
  unfold Js.ltb. rewrite negb_true_iff.
  destruct (Qle_bool y x) eqn:E.
  - apply Qle_bool_iff in E. split; [discriminate|]. intros L. Lqa.lra.
  - split; [intros _|reflexivity].
    apply Qnot_le_lt. intros L. apply Qle_bool_iff in L. congruence.
Qed.

Lemma ltb_false_iff x y : Js.ltb x y = false <-> y <= x.
Proof. unfold Js.ltb. rewrite negb_false_iff. apply Qle_bool_iff. Qed.

Lemma ltb_comp x x' y y' : x == x' -> y == y' -> Js.ltb x y = Js.ltb x' y'.
Proof.
  intros Hx Hy. destruct (Js.ltb x' y') eqn:E.
  - apply ltb_true_iff. apply ltb_true_iff in E. now rewrite Hx, Hy.
  - apply ltb_false_iff. apply ltb_false_iff in E. now rewrite Hx, Hy.
Qed.

(** The floor is the one integer within 1 below. *)
Lemma Qfloor_unique x z :
  inject_Z z <= x -> x < inject_Z (z + 1) -> Qfloor x = z.
Proof.
  intros L U.
  pose proof (Qfloor_le x) as L'. pose proof (Qlt_floor x) as U'.
  assert (A : inject_Z z < inject_Z (Qfloor x + 1)) by Lqa.lra.
  assert (B : inject_Z (Qfloor x) < inject_Z (z + 1)) by Lqa.lra.
  rewrite <- Zlt_Qlt in A, B. lia.
Qed.

Lemma max_spec x y : x <= JsNum.max x y /\ y <= JsNum.max x y /\
                     (JsNum.max x y = x \/ JsNum.max x y = y).
Proof.
  unfold JsNum.max. destruct (Js.ltb x y) eqn:E.
  - apply ltb_true_iff in E. repeat split; try Lqa.lra. now right.
  - apply ltb_false_iff in E. repeat split; try Lqa.lra. now left.
Qed.

Lemma min_spec x y : JsNum.min x y <= x /\ JsNum.min x y <= y /\
                     (JsNum.min x y = x \/ JsNum.min x y = y).
Proof.
  unfold JsNum.min. destruct (Js.ltb y x) eqn:E.
  - apply ltb_true_iff in E. repeat split; try Lqa.lra. now right.
  - apply ltb_false_iff in E. repeat split; try Lqa.lra. now left.
Qed.

(** For a time that is not negative: whole minutes, and what is left. *)
Lemma minutes_and_rest s :
  0 <= s ->
  Qfloor (s / 60) = (Qfloor s / 60)%Z /\
  JsNum.rem s 60 == s - 60 * inject_Z (Qfloor s / 60)%Z /\
  0 <= JsNum.rem s 60 /\ JsNum.rem s 60 < 60 /\
  Qfloor (JsNum.rem s 60) = (Qfloor s mod 60)%Z.
Proof.
  intros P.
  set (f := Qfloor s).
  pose proof (Qfloor_le s) as Lf. pose proof (Qlt_floor s) as Uf.
  fold f in Lf, Uf.
  assert (F0 : (0 <= f)%Z).
  { assert (A : inject_Z 0 < inject_Z (f + 1))
      by (change (inject_Z 0) with 0; Lqa.lra).
    rewrite <- Zlt_Qlt in A. lia. }
  set (m := (f / 60)%Z).
  pose proof (Z.div_mod f 60 ltac:(lia)) as DM. fold m in DM.
  pose proof (Z.mod_pos_bound f 60 ltac:(lia)) as MB.
  assert (Ef : inject_Z f == 60 * inject_Z m + inject_Z (f mod 60)).
  { rewrite DM at 1. rewrite inject_Z_plus, inject_Z_mult. reflexivity. }
  assert (M0 : inject_Z 0 <= inject_Z (f mod 60)) by (rewrite <- Zle_Qle; lia).
  assert (M1 : inject_Z (f mod 60 + 1) <= inject_Z 60)
    by (rewrite <- Zle_Qle; lia).
  rewrite inject_Z_plus in M1, Uf.
  change (inject_Z 0) with 0 in M0. change (inject_Z 1) with 1 in M1, Uf.
  change (inject_Z 60) with 60 in M1.
  assert (D : s / 60 == s * (1 # 60)) by field.
  assert (Fm : Qfloor (s / 60) = m).
  { apply Qfloor_unique; rewrite D;
      [|rewrite inject_Z_plus; change (inject_Z 1) with 1]; Lqa.lra. }
  assert (T : JsNum.trunc (s / 60) = m).
  { unfold JsNum.trunc.
    replace (Js.ltb (s / 60) 0) with false; [exact Fm|].
    symmetry. apply ltb_false_iff. rewrite D. Lqa.lra. }
  assert (R : JsNum.rem s 60 == s - 60 * inject_Z m)
    by (unfold JsNum.rem; now rewrite T).
  split; [exact Fm|]. split; [exact R|].
  split; [rewrite R; Lqa.lra|]. split; [rewrite R; Lqa.lra|].
  apply Qfloor_unique; rewrite R;
    [|rewrite inject_Z_plus; change (inject_Z 1) with 1]; Lqa.lra.
Qed.

Lemma padStart_twoDigits n :
  (0 <= n <= 60)%Z ->
  JsStr.padStart 2 "0" (Js.toString n) = twoDigits n.
Proof.
  intros H.
  assert (E : exists k, (k <= 60)%nat /\ n = Z.of_nat k)
    by (exists (Z.to_nat n); lia).
  destruct E as (k & Hk & ->). clear H.
  do 61 (destruct k as [|k]; [reflexivity|]).
  exfalso. lia.
Qed.

End NumberFacts.

Section TimeText.

Local Open Scope Q_scope.

Lemma formatTime_comp x y : x == y -> formatTime x = formatTime y.
Proof.
  intros E. unfold formatTime.
  assert (D : x / 60 == y / 60) by now rewrite E.
  assert (T : JsNum.trunc (x / 60) = JsNum.trunc (y / 60)).
  { unfold JsNum.trunc. rewrite (ltb_comp D (Qeq_refl 0)).
    unfold Qceiling. assert (N : - (x / 60) == - (y / 60)) by now rewrite D.
    now rewrite (Qfloor_comp _ _ D), (Qfloor_comp _ _ N). }
  assert (R : JsNum.rem x 60 == JsNum.rem y 60)
    by (unfold JsNum.rem; now rewrite T, E).
  now rewrite (Qfloor_comp _ _ D), (Qfloor_comp _ _ R).
Qed.

(** A time that is not negative is shown as the whole minutes, a colon,
    and the remaining whole seconds in two digits, which never exceed
    59. *)
Theorem formatTime_minutes_seconds s :
  0 <= s ->
  let whole := Qfloor s in
  formatTime s
  = (Js.toString (whole / 60) ++ ":" ++ twoDigits (whole mod 60))%string /\
  (0 <= whole mod 60 < 60)%Z /\
  (60 * (whole / 60) + whole mod 60 = whole)%Z.
Proof.
  intros P whole.
  destruct (minutes_and_rest P) as (M & _ & _ & _ & S).
  fold whole in M, S.
  pose proof (Z.mod_pos_bound whole 60 ltac:(lia)) as B.
  split; [|split; [exact B|]].
  - unfold formatTime. rewrite M, S.
    now rewrite padStart_twoDigits by lia.
  - pose proof (Z.div_mod whole 60 ltac:(lia)). lia.
Qed.

Lemma formatTime_minutes_seconds_witness :
  formatTime (3599 # 10) = "5:59"%string.
Proof.
  destruct (@formatTime_minutes_seconds (3599 # 10)) as (E & _).
  - discriminate.
  - rewrite E. reflexivity.
Defined.

(** The duration labels round the remaining seconds instead of cutting
    them: the field after the colon is the nearest whole number, from 00
    to 60, and reads 60 exactly when at least 59.5 seconds remain. *)
Theorem durationLabel_rounds d :
  0 <= d ->
  let seconds := Qfloor (JsNum.rem d 60 + (1 # 2)) in
  durationLabel d
  = (Js.toString (Qfloor d / 60) ++ ":" ++ twoDigits seconds)%string /\
  (0 <= seconds <= 60)%Z /\
  (seconds = 60%Z <-> (119 # 2) <= JsNum.rem d 60).
Proof.
  intros P seconds.
  destruct (minutes_and_rest P) as (M & _ & R0 & R1 & _).
  set (x := JsNum.rem d 60) in *.
  pose proof (Qfloor_le (x + (1 # 2))) as L.
  pose proof (Qlt_floor (x + (1 # 2))) as U.
  fold seconds in L, U. rewrite inject_Z_plus in U.
  change (inject_Z 1) with 1 in U.
  assert (B : (0 <= seconds <= 60)%Z).
  { assert (A : inject_Z (-1) < inject_Z seconds)
      by (change (inject_Z (-1)) with (-1 # 1); Lqa.lra).
    assert (C : inject_Z seconds < inject_Z 61)
      by (change (inject_Z 61) with 61; Lqa.lra).
    rewrite <- Zlt_Qlt in A, C. lia. }
  split; [|split; [exact B|]].
  - unfold durationLabel, JsNum.toFixed0. fold x.
    replace (Js.ltb x 0) with false
      by (symmetry; apply ltb_false_iff; exact R0).
    fold seconds. rewrite M. now rewrite padStart_twoDigits by lia.
  - split.
    + intros E. rewrite E in L. change (inject_Z 60) with 60 in L.
      Lqa.lra.
    + intros H.
      assert (A : inject_Z 59 < inject_Z seconds)
        by (change (inject_Z 59) with 59; Lqa.lra).
      rewrite <- Zlt_Qlt in A. lia.
Qed.

Lemma durationLabel_rounds_witness :
  durationLabel (1197 # 10) = "1:60"%string /\
  formatTime (1197 # 10) = "1:59"%string.
Proof.
  destruct (@durationLabel_rounds (1197 # 10)) as (E & _).
  - discriminate.
  - rewrite E. split; reflexivity.
Defined.

(** Every row of a timeline reached by adding and removing shows a time
    range that begins at 0:00 and ends at the item's duration. *)
Theorem itemTimes_from_zero tl it :
  reachable tl -> In it tl ->
  itemTimes it
  = ("0:00 - " ++ formatTime (TimelineItem.duration it))%string.
Proof.
  intros R I.
  pose proof (reachable_startTime R) as A. rewrite Forall_forall in A.
  unfold itemTimes. rewrite (A it I).
  rewrite (@formatTime_comp (0 + TimelineItem.duration it)
             (TimelineItem.duration it)) by apply Qplus_0_l.
  reflexivity.
Qed.

Lemma itemTimes_from_zero_witness :
  itemTimes (newItem oneImage motionVideo 1700000000009)
  = "0:00 - 0:10"%string.
Proof.
  rewrite (@itemTimes_from_zero
             (onAssetSelect oneImage motionVideo 1700000000009)).
  - reflexivity.
  - apply reach_add, reach_add, reach_empty.
  - right. left. reflexivity.
Defined.

End TimeText.

(** ** The audio player *)

Section PlayerFacts.

Import Player.
Local Open Scope Q_scope.



Lemma seekTo_time time st :
  currentTime (seekTo time st) = time \/ seekTo time st = st.
Proof.
  unfold seekTo. destruct (audioRef st); [now left | now right].
Qed.


Lemma clickTime_within duration x :
  0 <= duration -> 0 <= x -> x <= canvasWidth ->
  0 <= clickTime duration x /\ clickTime duration x <= duration.
Proof.
  unfold clickTime, canvasWidth. intros D X0 X1.
  set (u := x / 800).
  assert (E : u == x * (1 # 800)) by (unfold u; field).
  assert (U0 : 0 <= u) by (rewrite E; Lqa.lra).
  assert (U1 : u <= 1) by (rewrite E; Lqa.lra).
  split; Lqa.nra.
Qed.

Lemma step_within duration ev st :
  0 <= duration -> eventOk duration ev ->
  0 <= currentTime st /\ currentTime st <= duration ->
  0 <= currentTime (step duration ev st) /\
  currentTime (step duration ev st) <= duration.
Proof.
  intros D Ok [T0 T1]. destruct ev as [| |x|t| | |v]; cbn [step].
  - unfold skipBack.
    destruct (seekTo_time (JsNum.max 0 (currentTime st - 10)) st)
      as [E|E]; rewrite E; [|now split].
    destruct (max_spec 0 (currentTime st - 10)) as (A & _ & [M|M]);
      rewrite M in A |- *; split; Lqa.lra.
  - unfold skipForward.
    destruct (seekTo_time (JsNum.min duration (currentTime st + 10)) st)
      as [E|E]; rewrite E; [|now split].
    destruct (min_spec duration (currentTime st + 10)) as (A & _ & [M|M]);
      rewrite M in A |- *; split; Lqa.lra.
  - unfold handleCanvasClick. destruct Ok as [X0 X1].
    destruct (seekTo_time (clickTime duration x) st) as [E|E]; rewrite E;
      [|now split].
    now apply clickTime_within.
  - exact Ok.
  - cbn. split; Lqa.lra.
  - unfold togglePlayPause. destruct (audioRef st); now split.
  - now split.
Qed.

(** Whatever the user does with the skip buttons, the waveform and the
    other controls, and whatever times the element reports from within the
    track, the displayed time stays between 0 and the track's duration,
    and the playhead stays on the canvas. *)
Theorem player_time_within_track duration evs st :
  0 <= duration ->
  Forall (eventOk duration) evs ->
  0 <= currentTime st -> currentTime st <= duration ->
  let st' := run duration evs st in
  0 <= currentTime st' /\ currentTime st' <= duration /\
  (0 < duration ->
   0 <= playheadX duration st' /\ playheadX duration st' <= canvasWidth).
Proof.
  intros D Ok T0 T1 st'.
  assert (W : 0 <= currentTime st' /\ currentTime st' <= duration).
  { subst st'. revert st T0 T1.
    induction Ok as [|ev evs Hev _ IH]; intros st T0 T1; [now split|].
    cbn [run fold_left].
    destruct (@step_within duration ev st D Hev (conj T0 T1)) as [A B].
    apply (IH _ A B). }
  destruct W as [A B]. split; [exact A|]. split; [exact B|].
  intros P. unfold playheadX, canvasWidth.
  set (u := currentTime st' / duration).
  assert (E : u * duration == currentTime st')
    by (unfold u; field; intros Z0; rewrite Z0 in P; discriminate).
  assert (U0 : 0 <= u).
  { apply Qle_shift_div_l; [exact P|]. Lqa.lra. }
  assert (U1 : u <= 1).
  { apply Qle_shift_div_r; [exact P|]. Lqa.lra. }
  split; Lqa.lra.
Qed.

Lemma player_time_within_track_witness :
  let st' := run 25 [SkipForward; SkipForward; SkipForward; Click 400;
                     SkipBack; SkipBack] initial in
  0 <= currentTime st' /\ currentTime st' <= 25.
Proof.
  destruct (@player_time_within_track 25
              [SkipForward; SkipForward; SkipForward; Click 400;
               SkipBack; SkipBack] initial)
    as (A & B & _); try discriminate.
  - repeat constructor; discriminate.
  - split; [exact A | exact B].
Defined.





End PlayerFacts.

(** ** Item ids and removal *)

Section TimelineIds.

Implicit Types (tl : list TimelineItem.t) (it : TimelineItem.t).

Lemma to_int_proper z :
  Z.to_int z <> Decimal.Pos Decimal.Nil /\
  Z.to_int z <> Decimal.Neg Decimal.Nil.
Proof.
  destruct z as [|p|p]; simpl; split; try discriminate;
    intros [= E]; now apply (Unsigned.to_uint_nonnil p).
Qed.

(** Different clock readings print differently. *)
Lemma toString_inj a b : Js.toString a = Js.toString b -> a = b.
Proof.
  unfold Js.toString. intros E.
  apply DecimalZ.to_int_inj.
  destruct (to_int_proper a) as [A1 A2], (to_int_proper b) as [B1 B2].
  pose proof (NilZero.isi _ A1 A2) as Ia.
  pose proof (NilZero.isi _ B1 B2) as Ib.
  rewrite E in Ia. rewrite Ia in Ib. now injection Ib.
Qed.

Lemma stamped_ids t tl :
  stamped t tl ->
  NoDup (map TimelineItem.id tl) /\
  forall it, In it tl ->
             exists s, (s <= t)%Z /\ TimelineItem.id it = Js.toString s.
Proof.
  induction 1 as [t|t tl asset now _ [N B] L|t tl item _ [N B] I].
  - split; [constructor | intros it []].
  - split.
    + unfold onAssetSelect. rewrite map_app. cbn [map newItem].
      apply NoDup_app; [exact N | repeat constructor; intros [] |].
      intros i Hi [E|[]]. cbn [TimelineItem.id] in E.
      apply in_map_iff in Hi. destruct Hi as (it & <- & Hit).
      destruct (B it Hit) as (s & Hs & Es).
      rewrite Es in E. apply toString_inj in E. lia.
    + intros it Hit. unfold onAssetSelect in Hit.
      apply in_app_or in Hit. destruct Hit as [Hit|[<-|[]]].
      * destruct (B it Hit) as (s & Hs & Es). exists s. split; [lia|exact Es].
      * exists now. split; [lia | reflexivity].
  - split.
    + unfold removeItem. clear B I. induction tl as [|x tl IH]; [exact N|].
      cbn [List.filter]. inversion N as [|? ? Nx Nt]; subst.
      destruct (negb (TimelineItem.id x =? TimelineItem.id item)%string);
        [|now apply IH].
      cbn [map]. constructor; [|now apply IH].
      intros Hx. apply Nx. apply in_map_iff in Hx.
      destruct Hx as (y & Ey & Hy). apply filter_In in Hy.
      apply in_map_iff. exists y. tauto.
    + intros it Hit. apply In_removeItem in Hit. apply B, Hit.
Qed.

(** With distinct ids, the filter drops the one item. *)
Lemma removeItem_unique tl item :
  NoDup (map TimelineItem.id tl) -> In item tl ->
  exists tl1 tl2, tl = tl1 ++ item :: tl2 /\ removeItem tl item = tl1 ++ tl2.
Proof.
  intros N I. apply in_split in I. destruct I as (tl1 & tl2 & ->).
  exists tl1, tl2. split; [reflexivity|].
  rewrite removeItem_app. cbn [removeItem List.filter].
  rewrite String.eqb_refl. cbn [negb].
  rewrite map_app in N. cbn [map] in N.
  pose proof (NoDup_remove_2 _ _ _ N) as Out.
  fold (removeItem tl1 item) (removeItem tl2 item).
  rewrite !removeItem_others; [reflexivity| |];
    intros it Hit E; apply Out, in_or_app;
    [right|left]; apply in_map_iff; exists it; auto.
Qed.

(** While the clock advances between adds, ids are unique, so Remove takes
    out exactly the row it was clicked on and keeps the others in
    order. *)
Theorem remove_takes_one t tl item :
  stamped t tl -> In item tl ->
  NoDup (map TimelineItem.id tl) /\
  List.length (removeItem tl item) = (List.length tl - 1)%nat /\
  ~ In item (removeItem tl item) /\
  exists tl1 tl2, tl = tl1 ++ item :: tl2 /\ removeItem tl item = tl1 ++ tl2.
Proof.
  intros S I. destruct (stamped_ids S) as [N _].
  destruct (@removeItem_unique tl item N I) as (tl1 & tl2 & E & R).
  split; [exact N|]. split; [|split].
  - rewrite R, E, !length_app. cbn [List.length]. lia.
  - intros H. apply In_removeItem in H. now destruct H.
  - now exists tl1, tl2.
Qed.

Lemma remove_takes_one_witness :
  List.length (removeItem threeImages firstOfThree) = 2%nat.
Proof.
  assert (S : stamped 1700000000003 threeImages).
  { apply stamped_add with (t := 1700000000002%Z); [|lia].
    apply stamped_add with (t := 1700000000001%Z); [|lia].
    apply stamped_add with (t := 0%Z); [|lia].
    apply stamped_empty. }
  destruct (@remove_takes_one _ threeImages firstOfThree S) as (_ & L & _).
  - left. reflexivity.
  - exact L.
Defined.

(** Adding an asset at a fresh clock reading and removing the new row
    gives back the timeline as it was. *)
Theorem add_then_remove t tl asset now :
  stamped t tl -> (t < now)%Z ->
  removeItem (onAssetSelect tl asset now) (newItem tl asset now) = tl.
Proof.
  intros S L. destruct (stamped_ids S) as [_ B].
  unfold onAssetSelect. rewrite removeItem_app.
  cbn [removeItem List.filter]. rewrite String.eqb_refl. cbn [negb].
  fold (removeItem tl (newItem tl asset now)).
  rewrite removeItem_others; [apply app_nil_r|].
  intros it Hit E. destruct (B it Hit) as (s & Hs & Es).
  cbn [newItem TimelineItem.id] in E. rewrite Es in E.
  apply toString_inj in E. lia.
Qed.

Lemma add_then_remove_witness :
  removeItem (onAssetSelect twoImages motionVideo 1700000000005)
             (newItem twoImages motionVideo 1700000000005)
  = twoImages.
Proof.
  apply add_then_remove with (t := 1700000000002%Z); [|lia].
  apply stamped_add with (t := 1700000000001%Z); [|lia].
  apply stamped_add with (t := 0%Z); [|lia].
  apply stamped_empty.
Defined.

(** Two assets added at the same clock reading share their id: removing
    either row removes both. *)
Theorem same_reading_removed_together tl asset1 asset2 now :
  let first := newItem tl asset1 now in
  let tl1 := onAssetSelect tl asset1 now in
  let second := newItem tl1 asset2 now in
  let tl2 := onAssetSelect tl1 asset2 now in
  removeItem tl2 first = removeItem tl first /\
  removeItem tl2 second = removeItem tl first /\
  ~ In first (removeItem tl2 second) /\
  ~ In second (removeItem tl2 first).
Proof.
  intros first tl1 second tl2.
  assert (E : forall x, TimelineItem.id x = Js.toString now ->
                        removeItem tl2 x = removeItem tl x).
  { intros x Ex. subst tl2 tl1. unfold onAssetSelect.
    rewrite !removeItem_app. cbn [removeItem List.filter newItem TimelineItem.id].
    rewrite Ex, String.eqb_refl. cbn [negb]. now rewrite !app_nil_r. }
  assert (R : removeItem tl second = removeItem tl first) by reflexivity.
  rewrite (E first eq_refl), (E second eq_refl).
  repeat split; try exact R.
  - intros H. rewrite R in H. apply In_removeItem in H. now destruct H.
  - intros H. apply In_removeItem in H. now destruct H.
Qed.

(** Removing rows in either order leaves the same timeline, and removing
    a row a second time changes nothing. *)
Theorem remove_order_irrelevant tl item1 item2 :
  removeItem (removeItem tl item1) item2
  = removeItem (removeItem tl item2) item1 /\
  removeItem (removeItem tl item1) item1 = removeItem tl item1 /\
  (List.length (removeItem tl item1) <= List.length tl)%nat.
Proof.
  unfold removeItem. split; [|split].
  - induction tl as [|x tl IH]; [reflexivity|]. cbn [List.filter].
    destruct (negb (TimelineItem.id x =? TimelineItem.id item1)%string)
      eqn:A,
      (negb (TimelineItem.id x =? TimelineItem.id item2)%string) eqn:B;
      cbn [List.filter]; rewrite ?A, ?B, IH; reflexivity.
  - induction tl as [|x tl IH]; [reflexivity|]. cbn [List.filter].
    destruct (negb (TimelineItem.id x =? TimelineItem.id item1)%string)
      eqn:A; cbn [List.filter]; rewrite ?A, IH; reflexivity.
  - apply filter_length_le.
Qed.

End TimelineIds.

(** ** The steps of the application *)

Section WizardFacts.

Import Wizard.

(** Audio and style, once set, stay set; each later step was entered with
    them. *)
Lemma wizard_invariant st :
  reachable st ->
  (currentStep st <> upload -> audioFile st <> None) /\
  (currentStep st = customize \/ currentStep st = preview \/
   isGenerating st = true ->
   audioFile st <> None /\ selectedStyle st <> None).
Proof.
  induction 1 as [|st ev _ [IA IS] En].
  - split; [now intros [] | intros [H|[H|H]]; discriminate].
  - destruct ev as [audio|s|seen asset now|item| |]; cbn [apply enabled] in *.
    + split; [discriminate|]. cbn.
      intros [H|[H|H]]; try discriminate.
      destruct (IS (or_intror (or_intror H))) as [_ S].
      split; [discriminate | exact S].
    + destruct (currentStep st) eqn:C; try discriminate.
      assert (A : audioFile st <> None) by (apply IA; discriminate).
      split; cbn; intros; [exact A|]. split; [exact A | discriminate].
    + split; [exact IA | exact IS].
    + split; [exact IA | exact IS].
    + destruct (currentStep st) eqn:C; try discriminate.
      split; cbn; [intros _; apply IA; discriminate|].
      intros _. apply IS. now left.
    + split; cbn.
      * intros _. apply (IS (or_intror (or_intror En))).
      * intros _. apply (IS (or_intror (or_intror En))).
Qed.

(** On every state the application can reach: the preview step always has
    its audio file and style, so the preview never shows "No Preview
    Available" there; the customize step always shows the timeline editor;
    and the trigger of the current tab is never disabled in the first three
    steps. *)
Theorem steps_have_their_inputs st :
  reachable st ->
  (currentStep st = preview -> noPreviewAvailable st = false) /\
  (currentStep st = customize -> showsTimelineEditor st = true) /\
  (currentStep st <> preview ->
   triggerDisabled st (currentStep st) = false).
Proof.
  intros R. destruct (wizard_invariant R) as [IA IS].
  unfold noPreviewAvailable, showsTimelineEditor, triggerDisabled.
  split; [|split].
  - intros C. destruct (IS (or_intror (or_introl C))) as [A S].
    destruct (audioFile st), (selectedStyle st); congruence.
  - intros C. rewrite C.
    destruct (IS (or_introl C)) as [A _].
    destruct (audioFile st); congruence.
  - intros C. destruct (currentStep st) eqn:E; try congruence.
    + assert (A : audioFile st <> None) by (apply IA; discriminate).
      destruct (audioFile st); congruence.
    + destruct (IS (or_introl eq_refl)) as [_ S].
      destruct (selectedStyle st); congruence.
Qed.

Lemma steps_have_their_inputs_witness :
  let song := {| audio_name := "song.mp3"; audio_duration := 5 |} in
  let slides := {| style_id := "slideshow"; style_name := "Slideshow";
                   style_description := ""; style_type := slideshow |} in
  let st := apply GenerateFinished
              (apply GenerateClicked
                 (apply (AssetChosen [] galleryImage 1700000000001)
                    (apply (StyleClicked slides)
                       (apply (AudioUploaded song) initial)))) in
  currentStep st = preview /\ noPreviewAvailable st = false.
Proof.
  intros song slides st. split; [reflexivity|].
  assert (R : reachable st).
  { subst st. repeat (apply reach_event; [|reflexivity]). apply reach_initial. }
  destruct (steps_have_their_inputs R) as (P & _). apply P. reflexivity.
Defined.

(** The preview can nevertheless be reached with an empty timeline: rows
    can still be removed during the three seconds of generating. *)
Lemma preview_may_be_empty :
  exists st, reachable st /\ currentStep st = preview /\
             timelineItems st = [] /\ triggerDisabled st preview = true.
Proof.
  set (song := {| audio_name := "song.mp3"; audio_duration := 5 |}).
  set (slides := {| style_id := "slideshow"; style_name := "Slideshow";
                    style_description := ""; style_type := slideshow |}).
  exists (apply GenerateFinished
            (apply (RowRemoved (newItem [] galleryImage 1700000000001))
               (apply GenerateClicked
                  (apply (AssetChosen [] galleryImage 1700000000001)
                     (apply (StyleClicked slides)
                        (apply (AudioUploaded song) initial)))))).
  split; [|repeat split].
  repeat (apply reach_event; [|reflexivity]). apply reach_initial.
Qed.

End WizardFacts.

Section PreviewFacts.

Import Preview.
Local Open Scope Q_scope.

(** Nothing in the preview ever advances its time: whatever is clicked,
    the time stays 0 and the progress bar stays at 0 percent, for any
    audio file. *)
Theorem preview_progress_stays_zero evs audio :
  currentTime (run evs initial) = 0 /\
  progressWidth audio (run evs initial) == 0.
Proof.
  assert (T : forall st, currentTime st = 0 -> currentTime (run evs st) = 0).
  { induction evs as [|ev evs IH]; intros st H; [exact H|].
    cbn [run fold_left]. apply IH. destruct ev; [exact H | reflexivity]. }
  specialize (T initial eq_refl). split; [exact T|].
  unfold progressWidth. rewrite T. unfold Qdiv. now rewrite !Qmult_0_l.
Qed.

End PreviewFacts.

(** ** The audio uploader *)

Section UploaderFacts.

Import Uploader.
Local Open Scope Z_scope.

Implicit Types (st : Uploader.t) (evs : list Event).

(** A state in which a file can be handed over with no interval left from
    earlier: nothing uploading, nothing shown as uploaded. *)
Lemma ready_state st :
  acceptsFiles st = true -> intervals st = 0%nat -> phase st = Idle ->
  exists p, st = {| isUploading := false; uploadProgress := p;
                    uploadedFile := None; intervals := 0; phase := Idle |}.
Proof.
  destruct st as [u p f i ph]. unfold acceptsFiles. cbn.
  intros A -> ->. destruct u, f; try discriminate. now exists p.
Qed.

Lemma step_keeps_range ev st st' :
  step ev st = Some st' ->
  0 <= uploadProgress st <= 100 /\
  (isUploading st = true <-> phase st <> Idle) ->
  0 <= uploadProgress st' <= 100 /\
  (isUploading st' = true <-> phase st' <> Idle).
Proof.
  intros S [R P].
  destruct ev as [files|files| |d| | |]; cbn [step] in S.
  - unfold acceptsFiles in S. destruct (isUploading st) eqn:U; [discriminate|].
    destruct (uploadedFile st); [discriminate|]. cbn in S.
    destruct (droppedAudio files); injection S as <-; cbn.
    + split; [lia|]. split; [discriminate | reflexivity].
    + rewrite U. now split.
  - unfold acceptsFiles in S. destruct (isUploading st) eqn:U; [discriminate|].
    destruct (uploadedFile st); [discriminate|]. cbn in S.
    destruct (selectedFile files); injection S as <-; cbn.
    + split; [lia|]. split; [discriminate | reflexivity].
    + rewrite U. now split.
  - destruct (intervals st); [discriminate|]. injection S as <-.
    unfold tick. destruct (90 <=? uploadProgress st) eqn:C; cbn.
    + split; [lia | exact P].
    + apply Z.leb_gt in C. split; [lia | exact P].
  - destruct (phase st) eqn:Ph; try discriminate. injection S as <-. cbn.
    split; [lia|].
    split; [discriminate|]. intros _. apply P. discriminate.
  - destruct (phase st); try discriminate. injection S as <-. cbn.
    split; [lia|]. split; [discriminate | congruence].
  - destruct (phase st); try discriminate. injection S as <-. cbn.
    split; [exact R|]. split; [discriminate | congruence].
  - destruct (uploadedFile st) eqn:F; [|discriminate].
    destruct (isUploading st) eqn:U; [discriminate|].
    injection S as <-. unfold removeFile. rewrite F. cbn.
    rewrite U. now split.
Qed.

(** The progress bar of the uploader never leaves 0..100, whatever files
    are dropped or selected and however loading, failing, the timers and
    the remove button interleave; and the component shows itself as
    uploading exactly while a file is being processed. *)
Theorem upload_progress_in_range st :
  reachable st ->
  0 <= uploadProgress st <= 100 /\
  (isUploading st = true <-> phase st <> Idle).
Proof.
  intros [evs R].
  assert (G : forall s, run evs s = Some st ->
              0 <= uploadProgress s <= 100 /\
              (isUploading s = true <-> phase s <> Idle) ->
              0 <= uploadProgress st <= 100 /\
              (isUploading st = true <-> phase st <> Idle)).
  { clear R. induction evs as [|ev evs IH]; intros s Hs I.
    - injection Hs as <-. exact I.
    - cbn [run] in Hs. destruct (step ev s) as [s1|] eqn:E; [|discriminate].
      apply (IH s1 Hs). apply (@step_keeps_range ev s s1 E I). }
  apply (G initial R). cbn. split; [lia|].
  split; [discriminate | congruence].
Qed.

Lemma upload_progress_in_range_witness :
  let file := {| fi_name := "song.mp3"; fi_type := "audio/mpeg" |} in
  exists st,
    run ([Selected [file]] ++ repeat Tick 4 ++ [MetadataLoaded 5; Tick])
        initial = Some st /\
    0 <= uploadProgress st <= 100.
Proof.
  intros file. eexists. split; [reflexivity|].
  apply upload_progress_in_range.
  exists ([Selected [file]] ++ repeat Tick 4 ++ [MetadataLoaded 5; Tick]).
  reflexivity.
Defined.

(** When the metadata of the file arrives while the interval is still
    counting, that is within its first nine periods, the bar jumps to 100
    and the next period takes it back to 90, where it stays while the
    upload is still shown as running and after the file is reported. *)
Theorem upload_progress_falls_back st file duration k :
  acceptsFiles st = true -> intervals st = 0%nat -> phase st = Idle ->
  (k <= 9)%nat ->
  exists st1 st2 st3,
    run ([Selected [file]] ++ repeat Tick k ++ [MetadataLoaded duration]) st
      = Some st1 /\
    uploadProgress st1 = 100 /\
    step Tick st1 = Some st2 /\
    uploadProgress st2 = 90 /\ isUploading st2 = true /\
    step Tick st2 = None /\
    step TimeoutFired st2 = Some st3 /\
    uploadProgress st3 = 90 /\
    uploadedFile st3 = Some {| audio_name := fi_name file;
                               audio_duration := duration |}.
Proof.
  intros A I P K. destruct (ready_state st A I P) as [p ->].
  do 10 (destruct k as [|k];
         [do 3 eexists; repeat (split; [reflexivity|]); reflexivity|]).
  exfalso. lia.
Qed.

Lemma upload_progress_falls_back_witness :
  let file := {| fi_name := "song.mp3"; fi_type := "audio/mpeg" |} in
  exists st1 st2 st3,
    run ([Selected [file]] ++ repeat Tick 4 ++ [MetadataLoaded 5]) initial
      = Some st1 /\
    uploadProgress st1 = 100 /\
    step Tick st1 = Some st2 /\
    uploadProgress st2 = 90 /\ isUploading st2 = true /\
    step Tick st2 = None /\
    step TimeoutFired st2 = Some st3 /\
    uploadProgress st3 = 90 /\
    uploadedFile st3 = Some {| audio_name := "song.mp3";
                               audio_duration := 5 |}.
Proof.
  intros file.
  apply (@upload_progress_falls_back initial file 5 4);
    reflexivity || lia.
Defined.

(** A file selected in a ready state, [j] periods of the interval, then
    the error: the state is reset, and the interval is alive unless it has
    run its ten periods. *)
Lemma run_until_failure file p j :
  (j <= 10)%nat ->
  run ([Selected [file]] ++ repeat Tick j ++ [LoadFailed])
      {| isUploading := false; uploadProgress := p; uploadedFile := None;
         intervals := 0; phase := Idle |}
  = Some {| isUploading := false; uploadProgress := 0;
            uploadedFile := None;
            intervals := if (j <=? 9)%nat then 1 else 0;
            phase := Idle |}.
Proof.
  intros J.
  do 11 (destruct j as [|j]; [vm_compute; reflexivity|]).
  exfalso. lia.
Qed.

(** The interval left behind by a failed load counts on its own. *)
Lemma run_left_interval k :
  (k <= 9)%nat ->
  run (repeat Tick k)
      {| isUploading := false; uploadProgress := 0; uploadedFile := None;
         intervals := 1; phase := Idle |}
  = Some {| isUploading := false; uploadProgress := 10 * Z.of_nat k;
            uploadedFile := None; intervals := 1; phase := Idle |}.
Proof.
  intros K.
  do 10 (destruct k as [|k]; [vm_compute; reflexivity|]).
  exfalso. lia.
Qed.

(** A failed load resets the progress and lets the drop zone accept a new
    file, but does not stop the interval.  When the error comes within the
    interval's first nine periods the interval is still alive, and with
    nothing uploading any more the progress keeps counting from 0 up to
    90; when it comes after the tenth period the interval has cleared
    itself already and nothing counts. *)
Theorem failed_upload_and_interval st file j k :
  acceptsFiles st = true -> intervals st = 0%nat -> phase st = Idle ->
  (j <= 10)%nat -> (k <= 9)%nat ->
  exists failed,
    run ([Selected [file]] ++ repeat Tick j ++ [LoadFailed]) st
      = Some failed /\
    isUploading failed = false /\
    uploadProgress failed = 0 /\
    acceptsFiles failed = true /\
    ((j <= 9)%nat ->
     exists st',
       run (repeat Tick k) failed = Some st' /\
       isUploading st' = false /\
       uploadProgress st' = 10 * Z.of_nat k /\
       intervals st' = 1%nat /\
       acceptsFiles st' = true) /\
    (j = 10%nat -> intervals failed = 0%nat /\ step Tick failed = None).
Proof.
  intros A I P J K. destruct (ready_state st A I P) as [p ->].
  eexists. split; [apply (@run_until_failure file p j J)|].
  split; [reflexivity|]. split; [reflexivity|]. split; [reflexivity|].
  split.
  - intros J9.
    replace (j <=? 9)%nat with true by (symmetry; now apply Nat.leb_le).
    eexists. split; [apply (run_left_interval K)|].
    repeat (split; [reflexivity|]). reflexivity.
  - intros ->. split; reflexivity.
Qed.

Lemma failed_upload_and_interval_witness :
  let file := {| fi_name := "song.mp3"; fi_type := "audio/mpeg" |} in
  exists failed st',
    run ([Selected [file]] ++ repeat Tick 2 ++ [LoadFailed]) initial
      = Some failed /\
    run (repeat Tick 3) failed = Some st' /\
    isUploading st' = false /\
    uploadProgress st' = 10 * Z.of_nat 3.
Proof.
  intros file.
  destruct (@failed_upload_and_interval initial file 2 3)
    as (failed & R & _ & _ & _ & C & _); try reflexivity; try lia.
  destruct C as (st' & R' & U & Pr & _); [lia|].
  exists failed, st'. repeat split; assumption.
Defined.

End UploaderFacts.

(** ** Importing and selecting images *)

Section MediaFacts.

Import Media.

Lemma includesFile_In l file :
  includesFile l file = true <->
  exists f, In f l /\ upload_ref f = upload_ref file.
Proof.
  unfold includesFile. rewrite existsb_exists. unfold sameFile.
  split; intros (f & I & E); exists f; split; auto;
    now apply Nat.eqb_eq.
Qed.

Lemma toggle_off_others file l :
  (forall f, In f l -> upload_ref f <> upload_ref file) ->
  List.filter (fun f => negb (sameFile f file)) l = l.
Proof.
  induction l as [|x l IH]; intros H; [reflexivity|]. cbn [List.filter].
  unfold sameFile at 1.
  destruct (Nat.eqb_spec (upload_ref x) (upload_ref file)) as [E|E].
  - exfalso. apply (H x); [now left | exact E].
  - cbn [negb]. f_equal. apply IH. intros f Hf. apply H. now right.
Qed.

Lemma NoDup_filter_refs (p : Upload -> bool) l :
  NoDup (map upload_ref l) -> NoDup (map upload_ref (List.filter p l)).
Proof.
  induction l as [|x l IH]; intros N; [exact N|].
  cbn [map] in N. inversion N as [|? ? Nx Nl]; subst.
  cbn [List.filter]. destruct (p x); [|now apply IH].
  cbn [map]. constructor; [|now apply IH].
  intros H. apply Nx. apply in_map_iff in H. destruct H as (y & E & Hy).
  apply filter_In in Hy. apply in_map_iff. exists y. tauto.
Qed.

(** Only images are ever imported, no file is selected twice, and every
    selected file is an imported image, so a clip is always made from
    images. *)
Theorem selection_of_images st :
  reachable st ->
  Forall (fun f => isImage f = true) (importedImages st) /\
  NoDup (map upload_ref (selectedImages st)) /\
  Forall (fun f => In f (importedImages st) /\ isImage f = true)
         (selectedImages st).
Proof.
  induction 1 as [|files st _ (Im & N & Sel) _|file st _ (Im & N & Sel) I].
  - repeat split; constructor.
  - cbn [handleFileImport importedImages selectedImages].
    split; [|split; [exact N|]].
    + apply Forall_app. split; [exact Im|].
      apply Forall_forall. intros f Hf. now apply filter_In in Hf.
    + apply Forall_impl with (2 := Sel). intros f [Hf If].
      split; [apply in_or_app; now left | exact If].
  - cbn [toggleSelected importedImages selectedImages].
    split; [exact Im|]. unfold toggle.
    destruct (includesFile (selectedImages st) file) eqn:C.
    + split; [now apply NoDup_filter_refs|].
      apply Forall_forall. intros f Hf. apply filter_In in Hf.
      rewrite Forall_forall in Sel. apply Sel, Hf.
    + split.
      * rewrite map_app. cbn [map].
        apply NoDup_app; [exact N | repeat constructor; intros [] |].
        intros r Hr [E|[]]. apply in_map_iff in Hr.
        destruct Hr as (f & Ef & Hf).
        assert (T : includesFile (selectedImages st) file = true)
          by (apply includesFile_In; exists f; split; congruence).
        congruence.
      * apply Forall_app. split; [exact Sel|].
        repeat constructor; [exact I|].
        rewrite Forall_forall in Im. now apply Im.
Qed.

Lemma selection_of_images_witness :
  let png := {| upload_ref := 1; upload_type := "image/png";
                upload_image := Some (photo "a.png" 4000 3000) |} in
  let pdf := {| upload_ref := 2; upload_type := "application/pdf";
                upload_image := None |} in
  let st := toggleSelected png (handleFileImport [png; pdf] initial) in
  selectedImages st = [png] /\
  Forall (fun f => isImage f = true) (importedImages st).
Proof.
  intros png pdf st. split; [reflexivity|].
  assert (R : reachable st).
  { apply reach_toggle; [|left; reflexivity].
    apply reach_import; [apply reach_initial|].
    cbn. repeat constructor; cbn; intuition discriminate. }
  apply (selection_of_images R).
Defined.

(** Clicking a thumbnail twice: a file that was not selected is selected
    and deselected again, leaving the selection as it was; a file that was
    selected comes back at the end of the order. *)
Theorem toggle_twice file sel :
  (includesFile sel file = false -> toggle file (toggle file sel) = sel) /\
  (includesFile sel file = true ->
   toggle file (toggle file sel)
   = List.filter (fun f => negb (sameFile f file)) sel ++ [file]).
Proof.
  split; intros C.
  - assert (O : forall f, In f sel -> upload_ref f <> upload_ref file).
    { intros f Hf E.
      assert (T : includesFile sel file = true)
        by (apply includesFile_In; exists f; now split).
      congruence. }
    unfold toggle at 2. rewrite C. unfold toggle.
    replace (includesFile (sel ++ [file]) file) with true.
    + rewrite filter_app. cbn [List.filter]. unfold sameFile at 2.
      rewrite Nat.eqb_refl. cbn [negb].
      rewrite (@toggle_off_others file sel O). apply app_nil_r.
    + symmetry. apply includesFile_In. exists file.
      split; [apply in_or_app; right; now left | reflexivity].
  - unfold toggle at 2. rewrite C. unfold toggle.
    replace (includesFile
               (List.filter (fun f => negb (sameFile f file)) sel) file)
      with false; [reflexivity|].
    symmetry. apply not_true_is_false. intros T.
    apply includesFile_In in T. destruct T as (f & Hf & E).
    apply filter_In in Hf. destruct Hf as [_ Hf].
    unfold sameFile in Hf. apply Nat.eqb_eq in E. rewrite E in Hf.
    discriminate.
Qed.

Lemma toggle_twice_witness :
  let png := {| upload_ref := 1; upload_type := "image/png";
                upload_image := Some (photo "a.png" 4000 3000) |} in
  let jpg := {| upload_ref := 3; upload_type := "image/jpeg";
                upload_image := Some (photo "c.jpg" 1000 2000) |} in
  toggle jpg (toggle jpg [png]) = [png] /\
  toggle png (toggle png [png; jpg]) = [jpg; png].
Proof.
  intros png jpg.
  destruct (@toggle_twice jpg [png]) as [A _].
  destruct (@toggle_twice png [png; jpg]) as [_ B].
  split; [apply A | rewrite B]; reflexivity.
Defined.

End MediaFacts.

(** ** The library *)

Section LibraryFacts.

Import Library.

Lemma prefix_refl s : String.prefix s s = true.
Proof.
  induction s as [|c s IH]; [reflexivity|]. cbn.
  destruct (ascii_dec c c); [exact IH | contradiction].
Qed.

Lemma includes_refl s : JsStr.includes s s = true.
Proof. destruct s; cbn [JsStr.includes]; now rewrite prefix_refl. Qed.

Lemma filter_twice (A : Type) (p : A -> bool) l :
  List.filter p (List.filter p l) = List.filter p l.
Proof.
  induction l as [|x l IH]; [reflexivity|]. cbn [List.filter].
  destruct (p x) eqn:E; [|exact IH]. cbn [List.filter]. now rewrite E, IH.
Qed.

(** Searching only narrows: the result holds assets of the list and no
    more of them than the list, searching the result again changes
    nothing, the empty query shows everything, and typing an asset's name
    finds that asset. *)
Theorem search_narrows query assets :
  (forall a, In a (filterAssets query assets) -> In a assets) /\
  (List.length (filterAssets query assets) <= List.length assets)%nat /\
  filterAssets query (filterAssets query assets)
    = filterAssets query assets /\
  filterAssets "" assets = assets /\
  (forall a, In a assets ->
             In a (filterAssets (VisualAsset.name a) assets)).
Proof.
  unfold filterAssets. repeat split.
  - intros a. destruct (Js.truthy query); [|auto].
    intros H. now apply filter_In in H.
  - destruct (Js.truthy query); [apply filter_length_le | apply le_n].
  - destruct (Js.truthy query); [apply filter_twice | reflexivity].
  - intros a I. destruct (Js.truthy (VisualAsset.name a)); [|exact I].
    apply filter_In. split; [exact I | apply includes_refl].
Qed.

Lemma has_add x s y :
  has (add x s) y = true <-> has s y = true \/ x = y.
Proof.
  unfold add. destruct (has s x) eqn:H.
  - split; [now left|]. intros [A| <-]; assumption.
  - unfold has in *. rewrite existsb_app. cbn [existsb].
    rewrite orb_false_r, orb_true_iff, String.eqb_eq.
    intuition congruence.
Qed.

Lemma NoDup_add x s : NoDup s -> NoDup (add x s).
Proof.
  intros N. unfold add. destruct (has s x) eqn:H; [exact N|].
  apply NoDup_app; [exact N | repeat constructor; intros [] |].
  intros y Hy [<-|[]].
  assert (T : has s x = true).
  { unfold has. apply existsb_exists. exists x.
    split; [exact Hy | apply String.eqb_refl]. }
  congruence.
Qed.

(** Every click on a card adds one row to the timeline, also for an asset
    clicked before, while the selection is a set of ids: it never holds an
    id twice, and a card is highlighted exactly when its id is that of a
    clicked asset, its own or another one's with the same id. *)
Theorem clicks_add_rows_and_mark_ids cs st :
  let st' := clicks cs st in
  List.length (timeline st')
    = (List.length (timeline st) + List.length cs)%nat /\
  (NoDup (selectedAssets st) -> NoDup (selectedAssets st')) /\
  (forall a, highlighted st' a = true <->
             highlighted st a = true \/
             exists c, In c cs /\ VisualAsset.id (fst c) = VisualAsset.id a).
Proof.
  revert st. induction cs as [|c cs IH]; intros st; cbn zeta.
  - cbn. repeat split; auto; try lia.
    intros [H|(c & [] & _)]. exact H.
  - change (clicks (c :: cs) st)
      with (clicks cs (handleAssetClick (fst c) (snd c) st)).
    destruct (IH (handleAssetClick (fst c) (snd c) st)) as (L & N & H).
    cbn zeta in L, N, H. split; [|split].
    + rewrite L. cbn [handleAssetClick timeline]. unfold onAssetSelect.
      rewrite length_app. cbn [List.length]. lia.
    + intros D. apply N. cbn [handleAssetClick selectedAssets].
      now apply NoDup_add.
    + intros a. rewrite H. unfold highlighted at 1.
      cbn [handleAssetClick selectedAssets]. rewrite has_add.
      unfold highlighted. split.
      * intros [[A|A]|(c' & I & E)]; [now left | right | right].
        -- exists c. split; [now left | exact A].
        -- exists c'. split; [now right | exact E].
      * intros [A|(c' & [<-|I] & E)]; [left; now left | left; now right |].
        right. exists c'. now split.
Qed.

End LibraryFacts.

(** ** The image editor's calls *)

Section EditorCalls.

(** [applyImageEdits] brackets its work with [save] and [restore]: on any
    context the calls leave the drawing state and the stack of saved
    states as they found them and only add their drawing calls, the image
    and, when there is a caption, the text. *)
Theorem editCalls_balanced ed img w h ctx :
  let ctx' := editCalls ed img w h ctx in
  current ctx' = current ctx /\
  saved ctx' = saved ctx /\
  exists ops,
    drawn ctx' = drawn ctx ++ ops /\
    List.length ops = (if Js.truthy (textOverlay ed) then 2 else 1)%nat.
Proof.
  cbn zeta. unfold editCalls, Ctx.andThen.
  destruct (filterTemplate _ _ _ _); destruct (Js.truthy _);
    (split; [reflexivity|]); (split; [reflexivity|]);
    cbn; rewrite <- ?app_assoc; eexists; split; reflexivity.
Qed.

(** After Reset the image is drawn as when it was first loaded, whatever
    the settings were: once, at the origin, under the identity matrix,
    with the three sliders at 100% and no caption. *)
Theorem reset_draws_plain_image ed img :
  selectedImage ed = Some img ->
  exists c,
    applyImageEdits (resetEdits ed) = Some c /\
    canvas_width c = rwidth img /\ canvas_height c = rheight img /\
    drawn (context c)
    = [DrawImage img 0 0
         {| ctm := Matrix.identity;
            filter := Css.functions [Css.brightness 100; Css.contrast 100;
                                     Css.saturate 100];
            fillStyle := fillStyle defaultState;
            font := font defaultState;
            textAlign := textAlign defaultState |}].
Proof.
  intros S. unfold applyImageEdits. cbn [resetEdits selectedImage].
  rewrite S. eexists. split; [reflexivity|].
  cbn [canvas_width canvas_height context].
  split; [reflexivity|]. split; [reflexivity|].
  change {| selectedImage := Some img; brightness := 100; contrast := 100;
            saturation := 100; selectedFilter := "none"; textOverlay := "";
            textColor := textColor ed; textSize := textSize ed;
            rotation := 0 |}
    with (identityEdits img (textColor ed) (textSize ed)).
  apply identityEdits_drawn.
Qed.

Lemma reset_draws_plain_image_witness :
  exists c,
    applyImageEdits (resetEdits captionedUpsideDown) = Some c /\
    List.length (drawn (context c)) = 1%nat.
Proof.
  destruct (@reset_draws_plain_image captionedUpsideDown samplePixels
              eq_refl) as (c & E & _ & _ & D).
  exists c. split; [exact E|]. now rewrite D.
Defined.

End EditorCalls.

(** ** Frames of a clip *)

Section FrameFacts.

Lemma ratio_same_shape (w h w' h' : Z) :
  (0 < h)%Z -> (0 < h')%Z -> (w * h' = w' * h)%Z ->
  inject_Z w / inject_Z h == inject_Z w' / inject_Z h'.
Proof.
  intros H H' E.
  assert (Q1 : ~ inject_Z h == 0).
  { intros Z0. assert (P : inject_Z 0 < inject_Z h) by now rewrite <- Zlt_Qlt.
    rewrite Z0 in P. discriminate. }
  assert (Q2 : ~ inject_Z h' == 0).
  { intros Z0.
    assert (P : inject_Z 0 < inject_Z h') by now rewrite <- Zlt_Qlt.
    rewrite Z0 in P. discriminate. }
  assert (E' : inject_Z w * inject_Z h' == inject_Z w' * inject_Z h)
    by now rewrite <- !inject_Z_mult, E.
  setoid_replace (inject_Z w / inject_Z h)
    with (inject_Z w * inject_Z h' / (inject_Z h * inject_Z h'))
    by (field; split; assumption).
  rewrite E'. field. split; assumption.
Qed.

(** Where an image is drawn on the canvas of a clip depends on its shape
    alone: two images of the same proportions, whatever their sizes, get
    the same rectangle, and an image of the canvas's own 16:9 proportions
    covers the canvas exactly. *)
Theorem fit_depends_on_shape a b :
  (0 < img_width a)%Z -> (0 < img_height a)%Z ->
  (0 < img_width b)%Z -> (0 < img_height b)%Z ->
  (img_width a * img_height b = img_width b * img_height a)%Z ->
  (drawX (fitToCanvas a) == drawX (fitToCanvas b) /\
   drawY (fitToCanvas a) == drawY (fitToCanvas b) /\
   drawWidth (fitToCanvas a) == drawWidth (fitToCanvas b) /\
   drawHeight (fitToCanvas a) == drawHeight (fitToCanvas b)) /\
  ((img_width a * 9 = img_height a * 16)%Z ->
   drawX (fitToCanvas a) == 0 /\ drawY (fitToCanvas a) == 0 /\
   drawWidth (fitToCanvas a) == ClipCanvas.width /\
   drawHeight (fitToCanvas a) == ClipCanvas.height).
Proof.
  intros Wa Ha Wb Hb E.
  assert (R : inject_Z (img_width a) / inject_Z (img_height a)
              == inject_Z (img_width b) / inject_Z (img_height b))
    by now apply ratio_same_shape.
  assert (Pa := ratio_positive Wa Ha). assert (Pb := ratio_positive Wb Hb).
  split.
  - unfold fitToCanvas.
    rewrite (@ltb_comp _ (ClipCanvas.width / ClipCanvas.height)
               _ (inject_Z (img_width b) / inject_Z (img_height b))
               (Qeq_refl _) R).
    set (ra := inject_Z (img_width a) / inject_Z (img_height a)) in *.
    set (rb := inject_Z (img_width b) / inject_Z (img_height b)) in *.
    destruct (Js.ltb _ rb);
      cbn [drawX drawY drawWidth drawHeight]; rewrite R;
      repeat split; reflexivity.
  - intros S.
    assert (R16 : inject_Z (img_width a) / inject_Z (img_height a)
                  == ClipCanvas.width / ClipCanvas.height).
    { setoid_replace (ClipCanvas.width / ClipCanvas.height)
        with (inject_Z 16 / inject_Z 9) by reflexivity.
      apply ratio_same_shape; lia. }
    unfold fitToCanvas.
    rewrite (@ltb_comp _ (ClipCanvas.width / ClipCanvas.height)
               _ (ClipCanvas.width / ClipCanvas.height) (Qeq_refl _) R16).
    replace (Js.ltb (ClipCanvas.width / ClipCanvas.height)
                    (ClipCanvas.width / ClipCanvas.height))
      with false by reflexivity.
    cbn [drawX drawY drawWidth drawHeight]. rewrite R16.
    repeat split; reflexivity.
Qed.

Lemma fit_depends_on_shape_witness :
  drawWidth (fitToCanvas (photo "small.png" 160 90))
  == drawWidth (fitToCanvas (photo "large.png" 3840 2160)) /\
  drawWidth (fitToCanvas (photo "small.png" 160 90)) == ClipCanvas.width.
Proof.
  destruct (@fit_depends_on_shape (photo "small.png" 160 90)
              (photo "large.png" 3840 2160))
    as [(_ & _ & W & _) F]; cbn; try lia.
  split; [exact W|]. apply F. reflexivity.
Defined.

End FrameFacts.

(** ** From the selection to the timeline *)

Section ClipFacts.

Lemma loadAll_length files imgs :
  Media.loadAll files = Some imgs ->
  List.length imgs = List.length files /\
  hd_error imgs = match files with
                  | [] => None
                  | f :: _ => Media.upload_image f
                  end.
Proof.
  revert imgs. induction files as [|f rest IH]; intros imgs.
  - intros [= <-]. now split.
  - cbn [Media.loadAll]. destruct (Media.upload_image f) as [img|];
      [|discriminate].
    destruct (Media.loadAll rest) as [imgs'|]; [|discriminate].
    intros [= <-]. destruct (IH imgs' eq_refl) as [L _].
    cbn [List.length hd_error]. now rewrite L.
Qed.

Lemma loadAll_pending files :
  Media.loadAll files = None <->
  exists f, In f files /\ Media.upload_image f = None.
Proof.
  induction files as [|f rest IH]; cbn [Media.loadAll].
  - split; [discriminate | intros (f & [] & _)].
  - destruct (Media.upload_image f) as [img|] eqn:E.
    + destruct (Media.loadAll rest) as [imgs|].
      * split; [discriminate|]. intros (g & [<-|I] & N); [congruence|].
        assert (X : Some imgs = None) by (apply (proj2 IH); now exists g).
        discriminate.
      * split; [|reflexivity]. intros _.
        destruct (proj1 IH eq_refl) as (g & I & N).
        exists g. split; [now right | exact N].
    + split; [|reflexivity]. intros _. exists f. split; [now left | exact E].
Qed.

(** Create Clip on the selected thumbnails, with a positive number of
    seconds per image: nothing is made of an empty selection; when a
    selected file does not decode the call never gets past it and no asset
    is made; otherwise the clip is a video whose thumbnail is the frame of
    the image selected first, it lasts the number of selected images times
    the seconds per image, a row made of it lasts as long, and the chosen
    transition leaves no trace in it. *)
Theorem clip_of_selection st d tr now :
  0 < d ->
  let sel := Media.selectedImages st in
  let n := inject_Z (Z.of_nat (List.length sel)) in
  (Media.createVideoClip st d tr now = Media.NoClip <-> sel = []) /\
  (Media.createVideoClip st d tr now = Media.Pending <->
   exists f, In f sel /\ Media.upload_image f = None) /\
  ((exists clip, Media.createVideoClip st d tr now = Media.Created clip) <->
   sel <> [] /\ forall f, In f sel -> Media.upload_image f <> None) /\
  (forall clip,
      Media.createVideoClip st d tr now = Media.Created clip ->
      (exists f rest img,
          sel = f :: rest /\ Media.upload_image f = Some img /\
          VisualAsset.thumbnail clip = DataUrl (renderFrame img)) /\
      VisualAsset.type clip = video /\
      VisualAsset.duration clip = Some (n * d) /\
      (forall tl t, TimelineItem.duration (newItem tl clip t) = n * d) /\
      (forall tr',
          Media.createVideoClip st d tr' now = Media.Created clip)).
Proof.
  intros P sel n.
  assert (C : forall tr0,
             Media.createVideoClip st d tr0 now
             = match sel with
               | [] => Media.NoClip
               | _ :: _ =>
                   match Media.loadAll sel with
                   | None => Media.Pending
                   | Some imgs =>
                       match createVideoClip (Build_ClipCreator imgs d tr0)
                                             now with
                       | Some asset => Media.Created asset
                       | None => Media.NoClip
                       end
                   end
               end) by reflexivity.
  destruct sel as [|f rest] eqn:S.
  - rewrite C. split; [tauto|]. split.
    { split; [discriminate | intros (g & [] & _)]. }
    split; [split; [intros [c H]; discriminate | intros [H _]; congruence]|].
    intros c H. discriminate.
  - destruct (Media.loadAll (f :: rest)) as [imgs|] eqn:L.
    + destruct (loadAll_length _ L) as [Len Hd].
      destruct imgs as [|img imgs]; [discriminate|].
      cbn [hd_error] in Hd.
      assert (NP : forall g, In g (f :: rest) ->
                             Media.upload_image g <> None).
      { intros g I N.
        assert (X : Media.loadAll (f :: rest) = None)
          by (apply loadAll_pending; now exists g).
        congruence. }
      assert (V : forall tr0, exists clip,
                 Media.createVideoClip st d tr0 now = Media.Created clip /\
                 createVideoClip (Build_ClipCreator (img :: imgs) d tr0) now
                 = Some clip /\
                 VisualAsset.thumbnail clip = DataUrl (renderFrame img) /\
                 VisualAsset.type clip = video /\
                 VisualAsset.duration clip = Some (n * d) /\
                 forall tr1,
                   Media.createVideoClip st d tr1 now = Media.Created clip).
      { intros tr0. eexists. rewrite C. split; [reflexivity|].
        split; [reflexivity|]. split; [reflexivity|].
        split; [reflexivity|]. split; [|intros tr1; now rewrite C].
        cbn [VisualAsset.duration selectedImages clipDuration].
        subst n. now rewrite Len. }
      split; [split; [|discriminate]|].
      { destruct (V tr) as (c & E & _). rewrite E. discriminate. }
      split; [split|].
      { destruct (V tr) as (c & E & _). rewrite E. discriminate. }
      { intros (g & I & N). exfalso. now apply (NP g I). }
      split; [split|].
      { intros _. split; [discriminate | exact NP]. }
      { intros _. destruct (V tr) as (c & E & _). now exists c. }
      intros clip E. destruct (V tr) as (c & E' & Cc & Th & Ty & Du & Tr).
      assert (clip = c) by congruence. subst c.
      split; [exists f, rest, img; repeat split; [now symmetry | exact Th]|].
      split; [exact Ty|]. split; [exact Du|]. split; [|exact Tr].
      intros tl t.
      destruct (@created_clip_item_duration
                  (Build_ClipCreator (img :: imgs) d tr) now clip tl t P Cc)
        as (x & Ex & _ & Dx).
      rewrite Dx. congruence.
    + rewrite C. split; [split; discriminate|].
      split; [split; [intros _; now apply loadAll_pending | reflexivity]|].
      split; [split|].
      { intros [c H]. discriminate. }
      { intros [_ NP]. exfalso.
        destruct (proj1 (loadAll_pending (f :: rest)) L) as (g & I & N).
        now apply (NP g I). }
      intros c H. discriminate.
Qed.

Lemma clip_of_selection_witness :
  let png := {| Media.upload_ref := 1; Media.upload_type := "image/png";
                Media.upload_image := Some (photo "a.png" 4000 3000) |} in
  let st := Media.toggleSelected png
              (Media.handleFileImport [png] Media.initial) in
  exists clip,
    Media.createVideoClip st 3 "fade" 1700000000000 = Media.Created clip /\
    VisualAsset.duration clip = Some (1 * 3).
Proof.
  intros png st.
  assert (P : 0 < 3) by reflexivity.
  destruct (@clip_of_selection st 3 "fade"%string 1700000000000 P)
    as (_ & _ & _ & H).
  eexists. split; [reflexivity|].
  apply (H _ eq_refl).
Defined.

End ClipFacts.

(** ** The export component between sessions *)

Section ExportState.

Import ExportControls.

Lemma reachable_ticks n st :
  reachable st -> reachable (fst (ticks n st)).
Proof.
  revert st. induction n as [|n IH]; intros st R; [exact R|].
  cbn [ticks]. specialize (IH _ (reach_tick R)).
  destruct (tick st) as [s1 o1]. cbn [fst] in IH.
  now destruct (ticks n s1).
Qed.

(** The progress shown by the export card is, in every state of the
    component, a multiple of 5 from 0 to 100; while no export runs it is 0,
    before the first, or 100, after one, and the click on Export Video puts
    it back to 0 whatever it was. *)
Theorem export_progress_states st :
  reachable st ->
  (exists k, (0 <= k <= 20)%Z /\ exportProgress st = (5 * k)%Z) /\
  (isExporting st = false ->
   exportProgress st = 0%Z \/ exportProgress st = 100%Z) /\
  exportProgress (fst (handleExport st)) = 0%Z.
Proof.
  intros R. split; [|split; [|reflexivity]].
  - induction R as [| f st _ IH | q st _ IH | st _ IH _ | st _ IH].
    + exists 0%Z. split; [lia | reflexivity].
    + exact IH.
    + exact IH.
    + exists 0%Z. split; [lia | reflexivity].
    + destruct IH as (k & K & E). unfold tick.
      destruct (progressInterval st) as [[f q]|]; [|exists k; now split].
      destruct (100 <=? exportProgress st)%Z eqn:C;
        cbn [fst exportProgress].
      * exists 20%Z. split; [lia | reflexivity].
      * apply Z.leb_gt in C. exists (k + 1)%Z. split; lia.
  - induction R as [| f st _ IH | q st _ IH | st R IH _ | st R IH].
    + now left.
    + exact IH.
    + exact IH.
    + discriminate.
    + unfold tick. pose proof (reachable_interval R) as I.
      destruct (progressInterval st) as [[f q]|]; [|exact IH].
      destruct (100 <=? exportProgress st)%Z;
        cbn [fst exportProgress isExporting].
      * now right.
      * rewrite I. discriminate.
Qed.

Lemma export_progress_states_witness :
  exportProgress (fst (ticks 21 (fst (handleExport initial)))) = 0%Z \/
  exportProgress (fst (ticks 21 (fst (handleExport initial)))) = 100%Z.
Proof.
  assert (R : reachable (fst (ticks 21 (fst (handleExport initial))))).
  { apply reachable_ticks.
    apply reach_click; [apply reach_initial | reflexivity]. }
  apply (@export_progress_states _ R). reflexivity.
Defined.

End ExportState.

(** ** Saving an edited image *)

Section SavedEdits.

(** Save to Library does nothing while no edited image exists; once one
    exists it hands over an image asset with that URL and no duration,
    named "Edited_" and the name of the file, or "Edited_image" when
    there is no file name or an empty one, and the row the timeline makes
    of it lasts the default 3 seconds. *)
Theorem saved_edit_on_timeline url nm now :
  (url = ""%string -> saveEditedImage url nm now = None) /\
  (url <> ""%string ->
   exists asset,
     saveEditedImage url nm now = Some asset /\
     VisualAsset.id asset = Js.toString now /\
     VisualAsset.type asset = image /\
     VisualAsset.url asset = Href url /\
     VisualAsset.thumbnail asset = Href url /\
     VisualAsset.duration asset = None /\
     (forall n, nm = Some n -> n <> ""%string ->
                VisualAsset.name asset = ("Edited_" ++ n)%string) /\
     (nm = None \/ nm = Some ""%string ->
      VisualAsset.name asset = "Edited_image"%string) /\
     (forall tl t, TimelineItem.duration (newItem tl asset t) = 3)).
Proof.
  unfold saveEditedImage. split.
  - now intros ->.
  - destruct url as [|c url]; [contradiction|]. intros _.
    cbn [Js.truthy negb]. eexists. split; [reflexivity|].
    repeat (split; [reflexivity|]).
    cbn [VisualAsset.name]. split; [|split; [|reflexivity]].
    + intros n -> N. destruct n; [contradiction | reflexivity].
    + intros [->| ->]; reflexivity.
Qed.

Lemma saved_edit_on_timeline_witness :
  exists asset,
    saveEditedImage "blob:1" (Some "cat.png"%string) 1700000000000
    = Some asset /\
    VisualAsset.name asset = "Edited_cat.png"%string /\
    TimelineItem.duration (newItem [] asset 1700000000001) = 3.
Proof.
  destruct (@saved_edit_on_timeline "blob:1" (Some "cat.png"%string)
              1700000000000) as [_ H].
  destruct H as (asset & S & _ & _ & _ & _ & _ & N & _ & D);
    [discriminate|].
  exists asset. split; [exact S|]. split; [|apply D].
  apply (N "cat.png"%string); [reflexivity | discriminate].
Defined.

End SavedEdits.
